(** * simple-4d: the schedule parser and the 4D scheduling module

    A shallow embedding of [src/modules/msproject-parser/index.ts] and
    [src/modules/scheduling-4d/index.ts], with the properties the
    specification states about them.

    Conventions of the embedding.
    - A JavaScript number is an IEEE 754 double, Rocq's primitive [float];
      the arithmetic of the code is the arithmetic of [PrimFloat].  Numbers
      that the code only passes around as identifiers and clock readings
      (an entity's [expressId], [Date.now()]) are integers ([Z]).
    - A [Date] object is its time value: an integral number of milliseconds,
      or [NaN] for an Invalid Date.  The dates of a [ScheduleTask] and the
      bounds of the timeline are valid dates and are given by their time
      value alone ([Z]).
    - A field of a record of the schedule document is a value of any of the
      kinds the XML reader delivers for a tag: absent, boolean, number or
      string.
    - A JavaScript [Map] is a [gmap]; an array is a [list].
    - Objects that the code mutates in place and shares (the task objects of
      the parser) live in an explicit store and are named by their index.
    - An expression that may throw has a [Completion] for its outcome.
    - The callbacks [onTasksLoaded], [onTimelineStateChanged] and
      [onLinksUpdated] append to a trace of events.
    - What the host provides ([Date.parse], the clock, [RegExp],
      [parseFloat], the handle of [requestAnimationFrame], the rendering
      world) is a parameter. *)

From stdpp Require Import gmap strings list fin_maps pretty sorting.
From Stdlib Require Import QArith Floats.
Close Scope Q_scope.
Open Scope Z_scope.

(** ** JavaScript values *)

Module Js.

(** *** Numbers *)

(** The double nearest to an integer. *)
Definition ofZ (z : Z) : float :=
  SF2Prim (binary_normalize prec emax z 0 false).

(** A finite double with its fraction cut off (and 0 for the others). *)
Definition truncate (x : float) : Z :=
  match Prim2SF x with
  | S754_finite negative m e =>
      let magnitude :=
        if 0 <=? e then Z.shiftl (Zpos m) e else Z.shiftr (Zpos m) (- e) in
      if negative then - magnitude else magnitude
  | _ => 0
  end.

(** [s * 10^q ?= c * 2^e], on exact integers. *)
Definition compareScaled (s q c e : Z) : comparison :=
  (s * 10 ^ Z.max q 0 * 2 ^ Z.max (- e) 0)
  ?= (c * 2 ^ Z.max e 0 * 10 ^ Z.max (- q) 0).

(** The largest integer [s] with [s * 10^q <= m * 2^e]. *)
Definition floorScaled (m e q : Z) : Z :=
  (m * 2 ^ Z.max e 0 * 10 ^ Z.max (- q) 0)
  / (2 ^ Z.max (- e) 0 * 10 ^ Z.max q 0).

(** Whether the decimal [s * 10^q] is read back as the double [m * 2^e]:
    it lies between the midpoints to the two neighbouring doubles, which
    themselves round to the double with the even mantissa. *)
Definition roundsTo (m e s q : Z) : bool :=
  let below := if (m =? 2 ^ 52) && (-1074 <? e) then 1 else 2 in
  let lo := compareScaled s q (4 * m - below) (e - 2) in
  let hi := compareScaled s q (4 * m + 2) (e - 2) in
  match lo, hi with
  | Gt, Lt => true
  | Eq, Lt | Gt, Eq => Z.even m
  | _, _ => false
  end.

(** The integer [n] with [10^(n-1) <= m * 2^e < 10^n], from an estimate. *)
Fixpoint magnitude (fuel : nat) (m e n : Z) : Z :=
  match fuel with
  | O => n
  | S fuel' =>
      match compareScaled 1 (n - 1) m e, compareScaled 1 n m e with
      | Gt, _ => magnitude fuel' m e (n - 1)
      | _, (Lt | Eq) => magnitude fuel' m e (n + 1)
      | _, _ => n
      end
  end.

(** The shortest decimal [s * 10^q] that is read back as [m * 2^e], tried
    with [k], [k + 1], ... digits; among those of one length the one
    closest to the double, and the even one on a tie. *)
Fixpoint shortest (fuel : nat) (m e n k : Z) : Z * Z :=
  let q := n - k in
  let lo := floorScaled m e q in
  let hi := lo + 1 in
  match fuel with
  | O => (lo, q)
  | S fuel' =>
      match roundsTo m e lo q, roundsTo m e hi q with
      | true, false => (lo, q)
      | false, true => (hi, q)
      | true, true =>
          match compareScaled (lo + hi) q m (e + 1) with
          | Gt => (lo, q)
          | Lt => (hi, q)
          | Eq => (if Z.even lo then lo else hi, q)
          end
      | false, false => shortest fuel' m e n (k + 1)
      end
  end.

Fixpoint stripZeros (fuel : nat) (s q : Z) : Z * Z :=
  match fuel with
  | O => (s, q)
  | S fuel' =>
      if (s mod 10 =? 0) && negb (s =? 0)
      then stripZeros fuel' (s / 10) (q + 1)
      else (s, q)
  end.

Fixpoint zeros (n : nat) : string :=
  match n with
  | O => EmptyString
  | S n' => "0" +:+ zeros n'
  end.

(** [Number::toString] of the positive finite double [m * 2^e]: its
    shortest decimal, of [k] digits with the decimal point after the
    [n]-th, written plainly for [-6 < n <= 21] and with an exponent
    otherwise. *)
Definition positiveToString (m e : Z) : string :=
  let estimate := (Z.log2 m + e) * 30103 / 100000 + 1 in
  let '(s, q) := shortest 17 m e (magnitude 8 m e estimate) 1 in
  let '(s, q) := stripZeros 20 s q in
  let digits := pretty s in
  let k := Z.of_nat (String.length digits) in
  let n := k + q in
  match digits with
  | EmptyString => "0"
  | String first rest =>
      if (k <=? n) && (n <=? 21) then
        String first rest +:+ zeros (Z.to_nat (n - k))
      else if (0 <? n) && (n <=? 21) then
        String first (String.substring 0 (Z.to_nat n - 1) rest)
        +:+ "." +:+ String.substring (Z.to_nat n - 1) (Z.to_nat (k - n)) rest
      else if (-6 <? n) && (n <=? 0) then
        "0." +:+ zeros (Z.to_nat (- n)) +:+ digits
      else
        String first (if k =? 1 then EmptyString else "." +:+ rest)
        +:+ "e" +:+ (if 0 <=? n - 1 then "+" else "-")
        +:+ pretty (Z.abs (n - 1))
  end.

(** [Number::toString(x)], in radix 10. *)
Definition numberToString (x : float) : string :=
  match Prim2SF x with
  | S754_nan => "NaN"
  | S754_zero _ => "0"
  | S754_infinity false => "Infinity"
  | S754_infinity true => "-Infinity"
  | S754_finite false m e => positiveToString (Zpos m) e
  | S754_finite true m e => "-" +:+ positiveToString (Zpos m) e
  end.

(** The white space that [parseInt] skips (of the ASCII characters). *)
Definition isWhiteSpace (c : Ascii.ascii) : bool :=
  let n := Ascii.nat_of_ascii c in
  ((9 <=? n) && (n <=? 13))%nat || (n =? 32)%nat.

Fixpoint trimStart (s : string) : string :=
  match s with
  | String c rest => if isWhiteSpace c then trimStart rest else s
  | EmptyString => s
  end.

Definition digitValue (c : Ascii.ascii) : option Z :=
  let n := Ascii.nat_of_ascii c in
  if ((48 <=? n) && (n <=? 57))%nat then Some (Z.of_nat n - 48) else None.

(** The value of the longest prefix of decimal digits, if it is not
    empty. *)
Fixpoint leadingDigits (acc : option Z) (s : string) : option Z :=
  match s with
  | String c rest =>
      match digitValue c with
      | Some d => leadingDigits (Some (10 * default 0 acc + d)) rest
      | None => acc
      end
  | EmptyString => acc
  end.

(** [parseInt(s, 10)] on a string; 45 and 43 are the codes of the signs
    [-] and [+]. *)
Definition parseInt (s : string) : float :=
  let s := trimStart s in
  let '(negative, s) :=
    match s with
    | String c rest =>
        if (Ascii.nat_of_ascii c =? 45)%nat then (true, rest)
        else if (Ascii.nat_of_ascii c =? 43)%nat then (false, rest)
        else (false, s)
    | EmptyString => (false, s)
    end in
  match leadingDigits None s with
  | None => nan
  | Some z => if negative then (- ofZ z)%float else ofZ z
  end.

(** *** Dates *)

(** A [Date] object, by its time value. *)
Inductive Date : Type :=
| ValidDate (t : Z)
| InvalidDate.

(** [new Date(x)] for a number [x]: [TimeClip]. *)
Definition timeClip (x : float) : Date :=
  if is_finite x && (abs x <=? 8.64e15)%float
  then ValidDate (truncate x)
  else InvalidDate.

(** [date.getTime()]. *)
Definition getTime (date : Date) : float :=
  match date with
  | ValidDate t => ofZ t
  | InvalidDate => nan
  end.

(** [a > b], [a >= b] and [a <= b] on dates compare the time values, which
    are integers, and are false when one of them is [NaN]. *)
Definition dateGt (a b : Date) : bool :=
  match a, b with
  | ValidDate x, ValidDate y => y <? x
  | _, _ => false
  end.

Definition dateGe (a b : Date) : bool :=
  match a, b with
  | ValidDate x, ValidDate y => y <=? x
  | _, _ => false
  end.

Definition dateLe (a b : Date) : bool := dateGe b a.

(** *** Values of any type *)

(** The outcome of an expression that may throw. *)
Inductive Completion (A : Type) : Type :=
| Normal (a : A)
| Throw (error : string).
Arguments Normal {A} a.
Arguments Throw {A} error.

(** Sequencing: the rest is not evaluated after a [Throw]. *)
Definition andThen {A B : Type} (c : Completion A) (f : A -> Completion B)
  : Completion B :=
  match c with
  | Normal a => f a
  | Throw error => Throw error
  end.

(** [try { body } catch { handler }]. *)
Definition tryCatch {A : Type} (body : Completion A)
    (handler : Completion A) : Completion A :=
  match body with
  | Normal a => Normal a
  | Throw _ => handler
  end.

(** The values a field of a parsed record can hold: the field is absent,
    or its text was read as a boolean or as a number, or it stayed a
    string. *)
Inductive JsVal : Type :=
| JsUndefined
| JsBoolean (b : bool)
| JsNumber (x : float)
| JsString (s : string).

(** [ToBoolean]: what [!v] and [v || d] test. *)
Definition truthy (v : JsVal) : bool :=
  match v with
  | JsUndefined => false
  | JsBoolean b => b
  | JsNumber x => negb (is_zero x || is_nan x)
  | JsString s => negb (String.eqb s EmptyString)
  end.

(** [String(v)], the interpolation of [v] in a template literal, and [v]
    as an operand of [+] beside a string. *)
Definition toString (v : JsVal) : string :=
  match v with
  | JsUndefined => "undefined"
  | JsBoolean b => if b then "true" else "false"
  | JsNumber x => numberToString x
  | JsString s => s
  end.

(** [v || d]. *)
Definition or (v d : JsVal) : JsVal := if truthy v then v else d.

(** Whether [v] is a string or falsy: a truthy value of another type has
    no string methods, and calling one on it throws a [TypeError]. *)
Definition isStringOrFalsy (v : JsVal) : bool :=
  match v with
  | JsString _ => true
  | _ => negb (truthy v)
  end.

(** Truthiness of an optional string: [undefined] and the empty string are
    falsy. *)
Definition truthyStr (o : option string) : bool :=
  match o with
  | Some s => negb (String.eqb s EmptyString)
  | None => false
  end.

(** [s.startsWith(p)]. *)
Definition startsWith (s p : string) : bool := String.prefix p s.

End Js.

(** ** The data model ([src/types/schedule]) *)

Module Task.
Import Js.

(** [ScheduleTask].  The fields [duration], [percentComplete],
    [predecessors], [resources] and [notes] are read by neither the hierarchy
    construction nor the scheduling module and are left out.  [name] and
    [outlineNumber] are declared as strings, but the parser stores the value
    of the record as it is, so they are values of any type here.  An absent
    [children] array and an empty one are treated alike by every reader, so
    [children] is a list. *)
#[warnings="-register-all"]
Inductive ScheduleTask : Type := mkTask {
  id : string;
  taskId : string;
  name : JsVal;
  startDate : Z;
  endDate : Z;
  outlineLevel : float;
  outlineNumber : JsVal;
  children : list ScheduleTask
}.

End Task.
Export Task (ScheduleTask).

Inductive LinkType : Type := manual | rule.

Record TaskEntityLink : Type := mkLink {
  link_id : string;
  link_taskId : string;
  entityGlobalId : string;
  entityExpressId : Z;
  entityType : string;
  entityName : option string;
  linkType : LinkType
}.

Inductive RuleType : Type :=
| property_match
| name_pattern
| type_filter
| other_rule (tag : string).

Record RuleConfig : Type := mkConfig {
  propertyName : option string;
  propertyValue : option string;
  pattern : option string;
  ifcTypes : option (list string)
}.

Record LinkRule : Type := mkRule {
  rule_id : string;
  rule_taskId : string;
  ruleType : RuleType;
  ruleConfig : RuleConfig;
  isActive : bool
}.

Module Timeline.
Import Js.

Record TimelineState : Type := mkTimeline {
  currentDate : Date;
  startDate : Z;
  endDate : Z;
  isPlaying : bool;
  playbackSpeed : float
}.

End Timeline.

(** [flattenTasks], the same function in the parser (static) and in the
    scheduling module (private): a pre-order traversal. *)
Fixpoint traverse (task : ScheduleTask) : list ScheduleTask :=
  task :: flat_map traverse (Task.children task).

Definition flattenTasks (tasks : list ScheduleTask) : list ScheduleTask :=
  flat_map traverse tasks.

(** ** The schedule parser ([MSProjectParser]) *)

Module Parser.
Import Js Task.

(** A task record of the document, as [parseTasks] reads it: the fields
    that the modelled part of [ScheduleTask] is computed from, and
    [Duration], whose reading can throw.  A field is whatever the reader
    made of the tag (the parser is configured with [parseTagValue: true],
    so a text such as [1] or [1.1] arrives as a number). *)
Record TaskData : Type := mkTaskData {
  UID : JsVal;
  Name : JsVal;
  Start : JsVal;
  Finish : JsVal;
  Duration : JsVal;
  OutlineLevel : JsVal;
  OutlineNumber : JsVal
}.

(** The argument of [parseTasks]: [project.Tasks?.Task] is absent, one
    record, or an array of records. *)
Inductive TasksData : Type :=
| NoTasks
| OneTask (taskData : TaskData)
| TaskArray (taskArray : list TaskData).

Section WithHost.

(** The host: [Date.parse] on a date string ([None] for an unparsable one,
    where [getTime()] is [NaN]), the clock reading of [new Date()],
    [parseFloat] on a string, and [str.match(new RegExp(pattern))] with the
    text of its first group ([None] for no match). *)
Variable dateParse : string -> option Z.
Variable now : Z.
Variable parseFloat : string -> float.
Variable regExpMatch : string -> string -> option string.

(** [new Date(v)]. *)
Definition newDate (v : JsVal) : Date :=
  match v with
  | JsUndefined => InvalidDate
  | JsBoolean b => timeClip (if b then 1 else 0)
  | JsNumber x => timeClip x
  | JsString s =>
      match dateParse s with
      | Some t => ValidDate t
      | None => InvalidDate
      end
  end.

Definition parseDate (dateString : JsVal) : Z :=
  if negb (truthy dateString) then now
  else match newDate dateString with
       | ValidDate date => date
       | InvalidDate => now
       end.

Definition extractNumber (str marker : string) : float :=
  match regExpMatch ("(\d+(?:\.\d+)?)" +:+ marker) str with
  | Some group => parseFloat group
  | None => 0
  end.

(** [parseDuration].  [durationString.startsWith] is called on every truthy
    value; only a string has the method. *)
Definition parseDuration (durationString : JsVal) : Completion float :=
  if negb (truthy durationString) then Normal 0%float
  else
    match durationString with
    | JsString s =>
        if startsWith s "PT" then
          let hours := extractNumber s "H" in
          let minutes := extractNumber s "M" in
          let totalHours := (hours + minutes / 60)%float in
          Normal (totalHours / 8)%float
        else
          let num := parseFloat s in
          Normal (if is_nan num then 0 else num / 8)%float
    | _ => Throw "TypeError"
    end.

(** [parseInt(taskData.OutlineLevel || 1, 10)]. *)
Definition parseOutlineLevel (level : JsVal) : float :=
  parseInt (toString (or level (JsNumber 1))).

(** The fields of the object literal of the first pass. *)
Definition taskLiteral (taskData : TaskData) : ScheduleTask :=
  {| id := "task_" +:+ toString (UID taskData);
     taskId := toString (UID taskData);
     name := or (Name taskData) (JsString "Unnamed Task");
     startDate := parseDate (Start taskData);
     endDate := parseDate (Finish taskData);
     outlineLevel := parseOutlineLevel (OutlineLevel taskData);
     outlineNumber := or (OutlineNumber taskData) JsUndefined;
     children := [] |}.

(** The object literal: of the calls that compute a field left out of
    [ScheduleTask], [parseDuration] can throw. *)
Definition newTask (taskData : TaskData) : Completion ScheduleTask :=
  andThen (parseDuration (Duration taskData)) (fun duration =>
  Normal (taskLiteral taskData)).

(** First pass: one task per record whose [UID] is truthy, in input order.
    (The [taskMap] filled alongside is never read.) *)
Fixpoint firstPass (taskArray : list TaskData)
  : Completion (list ScheduleTask) :=
  match taskArray with
  | [] => Normal []
  | taskData :: rest =>
      if negb (truthy (UID taskData)) then firstPass rest
      else
        andThen (newTask taskData) (fun task =>
        andThen (firstPass rest) (fun tasks =>
        Normal (task :: tasks)))
  end.

(** The test of the loop in [findParentTask], conjunct by conjunct.
    [task.outlineNumber.startsWith] is reached with a truthy outline
    number, and throws when that is not a string. *)
Definition isParentOf (task potentialParent : ScheduleTask)
  : Completion bool :=
  if negb (outlineLevel potentialParent =? outlineLevel task - 1)%float
  then Normal false
  else if negb (truthy (outlineNumber task)) then Normal false
  else if negb (truthy (outlineNumber potentialParent)) then Normal false
  else
    match outlineNumber task with
    | JsString number =>
        Normal (startsWith number
                  (toString (outlineNumber potentialParent) +:+ "."))
    | _ => Throw "TypeError"
    end.

(** Index of the first element that satisfies [p]. *)
Fixpoint findIndex {A : Type} (p : A -> bool) (l : list A) : option nat :=
  match l with
  | [] => None
  | x :: l' => if p x then Some 0%nat else S <$> findIndex p l'
  end.

(** The same search with a test that may throw, which ends it. *)
Fixpoint findFirst {A : Type} (p : A -> Completion bool) (l : list A)
  : Completion (option nat) :=
  match l with
  | [] => Normal None
  | x :: l' =>
      andThen (p x) (fun found =>
      if found then Normal (Some 0%nat)
      else andThen (findFirst p l') (fun i => Normal (S <$> i)))
  end.

(** [findParentTask]: the parent object, named by its index in [allTasks]. *)
Definition findParentTask (task : ScheduleTask) (allTasks : list ScheduleTask)
  : Completion (option nat) :=
  if (outlineLevel task <=? 1)%float then Normal None
  else findFirst (isParentOf task) allTasks.

(** The mutable part of the object graph during the second pass: the
    [children] array of each task object (by index) and [rootTasks]. *)
Record Hierarchy : Type := mkHierarchy {
  childrenOf : list (list nat);
  rootTasks : list nat
}.

Definition pushChild (parent child : nat) (h : Hierarchy) : Hierarchy :=
  {| childrenOf := alter (fun cs => cs ++ [child]) parent (childrenOf h);
     rootTasks := rootTasks h |}.

Definition pushRoot (task : nat) (h : Hierarchy) : Hierarchy :=
  {| childrenOf := childrenOf h; rootTasks := rootTasks h ++ [task] |}.

(** Second pass: the loop over [tasks]; [i] is the index of the head of
    [rest] in [allTasks]. *)
Fixpoint secondPass (allTasks : list ScheduleTask) (i : nat)
    (rest : list ScheduleTask) (h : Hierarchy) : Completion Hierarchy :=
  match rest with
  | [] => Normal h
  | task :: rest' =>
      andThen (findParentTask task allTasks) (fun parent =>
      secondPass allTasks (S i) rest'
        match parent with
        | Some parent => pushChild parent i h
        | None => pushRoot i h
        end)
  end.

Definition buildHierarchy (tasks : list ScheduleTask)
  : Completion Hierarchy :=
  secondPass tasks 0 tasks
    {| childrenOf := replicate (length tasks) []; rootTasks := [] |}.

Definition withChildren (task : ScheduleTask) (cs : list ScheduleTask)
  : ScheduleTask :=
  {| id := id task; taskId := taskId task; name := name task;
     startDate := startDate task; endDate := endDate task;
     outlineLevel := outlineLevel task;
     outlineNumber := outlineNumber task; children := cs |}.

(** The task object [i] as a value, with its [children] arrays read out
    of the store.  [fuel] bounds the nesting depth that is followed; [None]
    means that it ran out, which [hierarchy_flatten] shows never happens
    under [parseTasks]. *)
Fixpoint snapshot (fuel : nat) (tasks : list ScheduleTask) (h : Hierarchy)
    (i : nat) : option ScheduleTask :=
  match fuel with
  | O => None
  | S fuel' =>
      task ← tasks !! i;
      cs ← childrenOf h !! i;
      kids ← mapM (snapshot fuel' tasks h) cs;
      Some (withChildren task kids)
  end.

(** The length of the outline number as a string. *)
Definition outlineLength (task : ScheduleTask) : nat :=
  String.length (toString (outlineNumber task)).

(** A child's outline number is strictly longer than its parent's, so no
    chain of children is longer than the longest outline number. *)
Definition depthBound (tasks : list ScheduleTask) : nat :=
  S (max_list (outlineLength <$> tasks)).

Definition toArray (tasksData : TasksData) : list TaskData :=
  match tasksData with
  | NoTasks => []
  | OneTask taskData => [taskData]
  | TaskArray taskArray => taskArray
  end.

(** [parseTasks]: the root tasks, each with its nested children, unless a
    call of one of the two passes throws. *)
Definition parseTasks (tasksData : TasksData)
  : Completion (option (list ScheduleTask)) :=
  andThen (firstPass (toArray tasksData)) (fun tasks =>
  andThen (buildHierarchy tasks) (fun h =>
  Normal (mapM (snapshot (depthBound tasks) tasks h) (rootTasks h)))).

End WithHost.

(** The object graph that the second pass builds when no call throws, read
    off the task list: whether [potentialParent] passes the test for
    [task], the parent of task [i], the length of its outline number, and
    the [taskId] it carries. *)
Definition nests (task potentialParent : ScheduleTask) : bool :=
  match isParentOf task potentialParent with
  | Normal found => found
  | Throw _ => false
  end.

Definition parentOf (tasks : list ScheduleTask) (i : nat) : option nat :=
  tasks !! i ≫= fun task =>
    if (outlineLevel task <=? 1)%float then None
    else findIndex (nests task) tasks.

Definition depthOf (tasks : list ScheduleTask) (i : nat) : nat :=
  from_option outlineLength 0%nat (tasks !! i).

Definition taskIdOf (tasks : list ScheduleTask) (i : nat) : string :=
  from_option taskId EmptyString (tasks !! i).

(** The store while the second pass runs, when the tasks below [i] have
    been attached (the invariant of its loop). *)
Definition attached (tasks : list ScheduleTask) (i : nat) : Hierarchy :=
  {| childrenOf :=
       (fun p => filter (fun c => parentOf tasks c = Some p) (seq 0 i))
         <$> seq 0 (length tasks);
     rootTasks := filter (fun c => parentOf tasks c = None) (seq 0 i) |}.

(** The records that the first pass keeps. *)
Definition withIdentifier (taskArray : list TaskData) : list TaskData :=
  filter (fun taskData => truthy (UID taskData) = true) taskArray.

(** A record on which no call of the two passes throws: its [Duration] and
    its [OutlineNumber] are strings, or falsy. *)
Definition readAsText (taskData : TaskData) : bool :=
  isStringOrFalsy (Duration taskData)
  && isStringOrFalsy (OutlineNumber taskData).

End Parser.

(** ** Forests given by parent pointers

    The second pass of the parser leaves an object graph in which node [i]
    has the children [kids i] and the roots are [roots]; [walk] is the
    pre-order traversal of that graph by index, and [up k x] is the [k]-th
    ancestor of [x]. *)

Module Forest.

Section Defs.

Variable n : nat.
Variable parent : nat -> option nat.

Definition kids (p : nat) : list nat :=
  filter (fun i => parent i = Some p) (seq 0 n).

Definition roots : list nat :=
  filter (fun i => parent i = None) (seq 0 n).

Fixpoint up (k : nat) (x : nat) : option nat :=
  match k with
  | O => Some x
  | S k' => parent x ≫= up k'
  end.

Fixpoint walk (fuel : nat) (i : nat) : list nat :=
  match fuel with
  | O => []
  | S fuel' => i :: flat_map (walk fuel') (kids i)
  end.

End Defs.

End Forest.

(** ** The 4D scheduling module ([Scheduling4DModule]) *)

Module Scheduling.
Import Js Timeline.

Module Entity.

Record EntityInfo : Type := mkEntity {
  globalId : string;
  expressId : Z;
  type : string;
  name : option string
}.

End Entity.
Import Entity.

(** What the three public callbacks are called with, in call order. *)
Inductive Event : Type :=
| TasksLoaded (tasks : list ScheduleTask)
| TimelineStateChanged (state : TimelineState)
| LinksUpdated (taskId : string) (links : list TaskEntityLink).

(** The fields of the class, the closure variable [lastTime] of the running
    animation loop, and the trace of callback calls. *)
Record Scheduling4DModule : Type := mkModule {
  tasks : list ScheduleTask;
  taskMap : gmap string ScheduleTask;
  entityLinks : gmap string (list TaskEntityLink);
  linkRules : gmap string (list LinkRule);
  timelineState : TimelineState;
  animationFrameId : option nat;
  lastTime : Z;
  trace : list Event
}.

Definition setTasks (ts : list ScheduleTask) (tm : gmap string ScheduleTask)
    (s : Scheduling4DModule) : Scheduling4DModule :=
  mkModule ts tm (entityLinks s) (linkRules s) (timelineState s)
    (animationFrameId s) (lastTime s) (trace s).

Definition setEntityLinks (m : gmap string (list TaskEntityLink))
    (s : Scheduling4DModule) : Scheduling4DModule :=
  mkModule (tasks s) (taskMap s) m (linkRules s) (timelineState s)
    (animationFrameId s) (lastTime s) (trace s).

Definition setLinkRules (m : gmap string (list LinkRule))
    (s : Scheduling4DModule) : Scheduling4DModule :=
  mkModule (tasks s) (taskMap s) (entityLinks s) m (timelineState s)
    (animationFrameId s) (lastTime s) (trace s).

Definition setTimelineState (t : TimelineState) (s : Scheduling4DModule)
  : Scheduling4DModule :=
  mkModule (tasks s) (taskMap s) (entityLinks s) (linkRules s) t
    (animationFrameId s) (lastTime s) (trace s).

Definition setAnimationFrameId (f : option nat) (s : Scheduling4DModule)
  : Scheduling4DModule :=
  mkModule (tasks s) (taskMap s) (entityLinks s) (linkRules s)
    (timelineState s) f (lastTime s) (trace s).

Definition setLastTime (t : Z) (s : Scheduling4DModule) : Scheduling4DModule :=
  mkModule (tasks s) (taskMap s) (entityLinks s) (linkRules s)
    (timelineState s) (animationFrameId s) t (trace s).

(** A callback is called. *)
Definition emit (e : Event) (s : Scheduling4DModule) : Scheduling4DModule :=
  mkModule (tasks s) (taskMap s) (entityLinks s) (linkRules s)
    (timelineState s) (animationFrameId s) (lastTime s) (trace s ++ [e]).

Definition setCurrent (d : Date) (t : TimelineState) : TimelineState :=
  mkTimeline d (startDate t) (endDate t) (isPlaying t) (playbackSpeed t).

Definition setIsPlaying (b : bool) (t : TimelineState) : TimelineState :=
  mkTimeline (currentDate t) (startDate t) (endDate t) b (playbackSpeed t).

Definition setSpeed (v : float) (t : TimelineState) : TimelineState :=
  mkTimeline (currentDate t) (startDate t) (endDate t) (isPlaying t) v.

Definition msPerDay : Z := 24 * 60 * 60 * 1000.

(** [constructor], at clock reading [now]. *)
Definition create (now : Z) : Scheduling4DModule :=
  {| tasks := []; taskMap := ∅; entityLinks := ∅; linkRules := ∅;
     timelineState :=
       {| currentDate := ValidDate now; startDate := now;
          endDate := now + 90 * 24 * 60 * 60 * 1000;
          isPlaying := false; playbackSpeed := 1%float |};
     animationFrameId := None; lastTime := 0; trace := [] |}.

Definition getFlatTasks (s : Scheduling4DModule) : list ScheduleTask :=
  flattenTasks (tasks s).

(** The loop of [calculateProjectTimeline]. *)
Definition minMaxStep (acc : Z * Z) (task : ScheduleTask) : Z * Z :=
  (if Task.startDate task <? fst acc
   then Task.startDate task else fst acc,
   if Task.endDate task >? snd acc
   then Task.endDate task else snd acc).

Definition calculateProjectTimeline
    (s : Scheduling4DModule) : Scheduling4DModule :=
  match getFlatTasks s with
  | [] => s
  | first :: _ =>
      let '(minDate, maxDate) :=
        foldl minMaxStep
          (Task.startDate first, Task.endDate first)
          (getFlatTasks s) in
      let t :=
        {| currentDate := ValidDate minDate;
           startDate := minDate; endDate := maxDate;
           isPlaying := isPlaying (timelineState s);
           playbackSpeed := playbackSpeed (timelineState s) |} in
      emit (TimelineStateChanged t) (setTimelineState t s)
  end.

Definition loadTasks (ts : list ScheduleTask)
    (s : Scheduling4DModule) : Scheduling4DModule :=
  let taskMap' :=
    foldl (fun m task => <[Task.taskId task := task]> m) ∅ (flattenTasks ts) in
  emit (TasksLoaded ts) (calculateProjectTimeline (setTasks ts taskMap' s)).

Definition getTaskLinks (taskId : string) (s : Scheduling4DModule)
  : list TaskEntityLink :=
  default [] (entityLinks s !! taskId).

Definition alreadyLinked (expressId : Z) (links : list TaskEntityLink)
  : bool :=
  existsb (fun l => entityExpressId l =? expressId) links.

(** The object literal at the head of [linkEntityToTask]; [now] is the
    reading of [Date.now()]. *)
Definition makeLink (now : Z) (taskId : string) (entity : EntityInfo)
  : TaskEntityLink :=
  {| link_id := "link_" +:+ taskId +:+ "_" +:+ pretty (expressId entity)
                +:+ "_" +:+ pretty now;
     link_taskId := taskId;
     entityGlobalId := globalId entity;
     entityExpressId := expressId entity;
     entityType := type entity;
     entityName := name entity;
     linkType := manual |}.

Definition linkEntityToTask (now : Z) (taskId : string) (entity : EntityInfo)
    (s : Scheduling4DModule) : Scheduling4DModule :=
  let link := makeLink now taskId entity in
  let s1 :=
    match entityLinks s !! taskId with
    | Some _ => s
    | None => setEntityLinks (<[taskId := []]> (entityLinks s)) s
    end in
  let links := getTaskLinks taskId s1 in
  if negb (alreadyLinked (expressId entity) links) then
    emit (LinksUpdated taskId (links ++ [link]))
      (setEntityLinks (<[taskId := links ++ [link]]> (entityLinks s1)) s1)
  else s1.

Definition unlinkEntityFromTask (taskId : string) (expressId : Z)
    (s : Scheduling4DModule) : Scheduling4DModule :=
  match entityLinks s !! taskId with
  | None => s
  | Some links =>
      let filtered :=
        filter (fun link => entityExpressId link <> expressId) links in
      emit (LinksUpdated taskId filtered)
        (setEntityLinks (<[taskId := filtered]> (entityLinks s)) s)
  end.

Definition addLinkRule (r : LinkRule)
    (s : Scheduling4DModule) : Scheduling4DModule :=
  let rules := default [] (linkRules s !! rule_taskId r) in
  setLinkRules (<[rule_taskId r := rules ++ [r]]> (linkRules s)) s.

Definition removeLinkRule (ruleId : string)
    (s : Scheduling4DModule) : Scheduling4DModule :=
  setLinkRules
    (filter (fun r => rule_id r <> ruleId) <$> linkRules s) s.

Definition getTaskRules (taskId : string)
    (s : Scheduling4DModule) : list LinkRule :=
  default [] (linkRules s !! taskId).

Section WithHost.

(** The host: compiled regular expressions, [new RegExp(pattern, flags)]
    (which throws a [SyntaxError] on a pattern that does not compile) and
    [regex.test(s)]; and whether [BIMCore.getInstance().world] is set. *)
Variable RegExp : Type.
Variable newRegExp : string -> string -> Completion RegExp.
Variable test : RegExp -> string -> bool.
Variable world : bool.

Definition doesEntityMatchRule (entity : EntityInfo) (r : LinkRule)
  : Completion bool :=
  match ruleType r with
  | type_filter =>
      Normal match ifcTypes (ruleConfig r) with
             | Some types => bool_decide (type entity ∈ types)
             | None => false
             end
  | name_pattern =>
      if negb (truthyStr (name entity))
         || negb (truthyStr (pattern (ruleConfig r)))
      then Normal false
      else
        tryCatch
          match newRegExp (default EmptyString (pattern (ruleConfig r))) "i"
          with
          | Normal regex =>
              Normal (test regex (default EmptyString (name entity)))
          | Throw e => Throw e
          end
          (Normal false)
  | property_match => Normal false
  | other_rule _ => Normal false
  end.

(** The inner loop of [applyRulesToEntities]; a [Throw] ends it with the
    state reached so far. *)
Fixpoint applyRule (now : Z) (taskId : string) (r : LinkRule)
    (entities : list EntityInfo) (s : Scheduling4DModule)
  : Completion unit * Scheduling4DModule :=
  match entities with
  | [] => (Normal tt, s)
  | entity :: rest =>
      match doesEntityMatchRule entity r with
      | Throw e => (Throw e, s)
      | Normal true =>
          applyRule now taskId r rest (linkEntityToTask now taskId entity s)
      | Normal false => applyRule now taskId r rest s
      end
  end.

(** The outer loop. *)
Fixpoint applyRules (now : Z) (taskId : string) (rules : list LinkRule)
    (entities : list EntityInfo) (s : Scheduling4DModule)
  : Completion unit * Scheduling4DModule :=
  match rules with
  | [] => (Normal tt, s)
  | r :: rest =>
      if negb (isActive r) then applyRules now taskId rest entities s
      else
        match applyRule now taskId r entities s with
        | (Throw e, s') => (Throw e, s')
        | (Normal _, s') => applyRules now taskId rest entities s'
        end
  end.

Definition applyRulesToEntities (now : Z) (taskId : string)
    (entities : list EntityInfo) (s : Scheduling4DModule)
  : Completion unit * Scheduling4DModule :=
  applyRules now taskId (getTaskRules taskId s) entities s.

(** The arguments of one call of [applyVisualizationToEntities]. *)
Record Visual : Type := mkVisual {
  visible : bool;
  opacity : Q;
  color : Z
}.

(** The tints: [0x888888] gray, [0x88ff88] light green, [0xffff88] light
    yellow. *)
Definition gray : Z := 0x888888.
Definition lightGreen : Z := 0x88ff88.
Definition lightYellow : Z := 0xffff88.

Definition isStarted (currentDate : Date) (task : ScheduleTask) : bool :=
  dateGe currentDate (ValidDate (Task.startDate task)).

Definition isCompleted (currentDate : Date) (task : ScheduleTask) : bool :=
  dateGe currentDate (ValidDate (Task.endDate task)).

(** The body of the loop of [updateVisualization]: not started, completed,
    in progress. *)
Definition taskVisual (currentDate : Date) (task : ScheduleTask)
  : Visual :=
  if negb (isStarted currentDate task) then mkVisual true (2 # 10) gray
  else if isCompleted currentDate task then mkVisual true 1 lightGreen
  else mkVisual true 1 lightYellow.

(** [updateVisualization]: the calls of [applyVisualizationToEntities] it
    makes, one per entry of [entityLinks] whose task is known.
    ([applyVisualizationToEntities] itself has an empty body, so the module
    state is not changed.) *)
Definition updateVisualization (s : Scheduling4DModule)
  : list (list TaskEntityLink * Visual) :=
  if negb world then []
  else
    omap (fun '(taskId, links) =>
            match taskMap s !! taskId with
            | None => None
            | Some task =>
                Some (links, taskVisual (currentDate (timelineState s)) task)
            end)
         (map_to_list (entityLinks s)).

(** The state changes of [setCurrentDate], [reset] and [animate]; their
    calls of [updateVisualization] leave the state as it is. *)
Definition setCurrentDate (date : Date)
    (s : Scheduling4DModule) : Scheduling4DModule :=
  let s1 := setTimelineState (setCurrent date (timelineState s)) s in
  emit (TimelineStateChanged (timelineState s1)) s1.

Definition setPlaybackSpeed (speed : float)
    (s : Scheduling4DModule) : Scheduling4DModule :=
  let s1 := setTimelineState (setSpeed speed (timelineState s)) s in
  emit (TimelineStateChanged (timelineState s1)) s1.

(** [startAnimation]: [lastTime] is set and the first frame is requested;
    [handle] is what [requestAnimationFrame] returns. *)
Definition startAnimation (now : Z) (handle : nat) (s : Scheduling4DModule)
  : Scheduling4DModule :=
  setAnimationFrameId (Some handle) (setLastTime now s).

Definition stopAnimation (s : Scheduling4DModule) : Scheduling4DModule :=
  match animationFrameId s with
  | Some _ => setAnimationFrameId None s
  | None => s
  end.

Definition play (now : Z) (handle : nat)
    (s : Scheduling4DModule) : Scheduling4DModule :=
  if isPlaying (timelineState s) then s
  else
    let s1 := setTimelineState (setIsPlaying true (timelineState s)) s in
    startAnimation now handle
      (emit (TimelineStateChanged (timelineState s1)) s1).

Definition pause (s : Scheduling4DModule) : Scheduling4DModule :=
  let s1 := setTimelineState (setIsPlaying false (timelineState s)) s in
  stopAnimation (emit (TimelineStateChanged (timelineState s1)) s1).

Definition reset (s : Scheduling4DModule) : Scheduling4DModule :=
  let t := timelineState s in
  let s1 :=
    setTimelineState
      (setIsPlaying false (setCurrent (ValidDate (startDate t)) t)) s in
  let s2 := stopAnimation s1 in
  emit (TimelineStateChanged (timelineState s2)) s2.

(** The date that a tick computes from the clock reading [now]:
    [new Date(currentDate.getTime() + daysToAdd * 24 * 60 * 60 * 1000)], in
    the arithmetic of doubles. *)
Definition advancedDate (now : Z) (s : Scheduling4DModule) : Date :=
  let deltaSeconds := ((ofZ now - ofZ (lastTime s)) / 1000)%float in
  let daysToAdd := (deltaSeconds * playbackSpeed (timelineState s))%float in
  timeClip (getTime (currentDate (timelineState s))
            + daysToAdd * 24 * 60 * 60 * 1000)%float.

(** One run of the callback [animate], at clock reading [now]; [handle] is
    what the closing [requestAnimationFrame] returns. *)
Definition animate (now : Z) (handle : nat)
    (s : Scheduling4DModule) : Scheduling4DModule :=
  if negb (isPlaying (timelineState s)) then s
  else
    let newDate := advancedDate now s in
    let s1 := setLastTime now s in
    let s2 :=
      if dateGt newDate (ValidDate (endDate (timelineState s1))) then
        let s' := pause s1 in
        setTimelineState
          (setCurrent (ValidDate (endDate (timelineState s')))
             (timelineState s')) s'
      else setTimelineState (setCurrent newDate (timelineState s1)) s1 in
    setAnimationFrameId (Some handle)
      (emit (TimelineStateChanged (timelineState s2)) s2).

Definition dispose (s : Scheduling4DModule) : Scheduling4DModule :=
  let s1 := stopAnimation s in
  setLinkRules ∅ (setEntityLinks ∅ (setTasks [] ∅ s1)).

(** The public operations, as commands with their arguments. *)
Inductive Op : Type :=
| OpLoadTasks (ts : list ScheduleTask)
| OpLink (now : Z) (taskId : string) (entity : EntityInfo)
| OpUnlink (taskId : string) (expressId : Z)
| OpAddRule (r : LinkRule)
| OpRemoveRule (ruleId : string)
| OpApplyRules (now : Z) (taskId : string) (entities : list EntityInfo)
| OpSetCurrentDate (date : Date)
| OpSetPlaybackSpeed (speed : float)
| OpPlay (now : Z) (handle : nat)
| OpPause
| OpReset
| OpTick (now : Z) (handle : nat)
| OpDispose.

Definition step (s : Scheduling4DModule) (o : Op) : Scheduling4DModule :=
  match o with
  | OpLoadTasks ts => loadTasks ts s
  | OpLink now taskId entity => linkEntityToTask now taskId entity s
  | OpUnlink taskId expressId => unlinkEntityFromTask taskId expressId s
  | OpAddRule r => addLinkRule r s
  | OpRemoveRule ruleId => removeLinkRule ruleId s
  | OpApplyRules now taskId entities =>
      snd (applyRulesToEntities now taskId entities s)
  | OpSetCurrentDate date => setCurrentDate date s
  | OpSetPlaybackSpeed speed => setPlaybackSpeed speed s
  | OpPlay now handle => play now handle s
  | OpPause => pause s
  | OpReset => reset s
  | OpTick now handle => animate now handle s
  | OpDispose => dispose s
  end.

(** The state after a sequence of calls on a module created at [t0]. *)
Definition run (t0 : Z) (ops : list Op) : Scheduling4DModule :=
  foldl step (create t0) ops.

End WithHost.

(** Notions used in the statements below. *)

(** The number of links of task [taskId] to the entity [expressId]. *)
Definition linkCount (taskId : string) (expressId : Z)
    (s : Scheduling4DModule) : nat :=
  length (filter (fun l => entityExpressId l = expressId)
                 (getTaskLinks taskId s)).

Definition linked (taskId : string) (expressId : Z)
    (s : Scheduling4DModule) : Prop :=
  alreadyLinked expressId (getTaskLinks taskId s) = true.

(** At most one link per task and entity. *)
Definition linksUnique (s : Scheduling4DModule) : Prop :=
  forall taskId links,
    entityLinks s !! taskId = Some links ->
    NoDup (entityExpressId <$> links).

(** Every stored link is a manual one. *)
Definition allManual (s : Scheduling4DModule) : Prop :=
  map_Forall (fun _ links => Forall (fun l => linkType l = manual) links)
             (entityLinks s).

Definition isMinimumOf (x : Z) (l : list Z) : Prop :=
  x ∈ l /\ forall y, y ∈ l -> x <= y.

Definition isMaximumOf (x : Z) (l : list Z) : Prop :=
  x ∈ l /\ forall y, y ∈ l -> y <= x.

End Scheduling.

(** ** The remaining parts of the parser and of the scheduling module, and
    the callers in the [use4D] hook *)

Module ParserMore.
Import Js Task Parser.

(** A field that holds nothing, one object, or an array of objects. *)
Inductive OneOrMany (A : Type) : Type :=
| Absent
| One (a : A)
| Many (l : list A).
Arguments Absent {A}.
Arguments One {A} a.
Arguments Many {A} l.

(** [Array.isArray(x) ? x : [x]], for a present [x]. *)
Definition asArray {A : Type} (x : OneOrMany A) : list A :=
  match x with
  | Absent => []
  | One a => [a]
  | Many l => l
  end.

Record PredecessorLink : Type := mkPredecessorLink {
  PredecessorUID : JsVal
}.

Record ResourceAssignment : Type := mkResourceAssignment {
  ResourceUID : JsVal
}.

(** [taskData.Assignments]: absent, or an object with the field
    [Assignment]. *)
Record Assignments : Type := mkAssignments {
  Assignment : OneOrMany ResourceAssignment
}.

(** [.filter(Boolean)] on strings keeps the non-empty ones. *)
Definition nonEmpty (s : string) : bool := negb (String.eqb s EmptyString).

(** [parsePredecessors]: [String] is applied before the filter. *)
Definition parsePredecessors (predecessorData : OneOrMany PredecessorLink)
  : list string :=
  match predecessorData with
  | Absent => []
  | _ =>
      List.filter nonEmpty
        (List.map (fun pred => toString (PredecessorUID pred))
                  (asArray predecessorData))
  end.

(** [parseResources]: the filter is applied before [String]. *)
Definition parseResources (assignmentsData : option Assignments)
  : list string :=
  match assignmentsData with
  | None => []
  | Some a =>
      match Assignment a with
      | Absent => []
      | _ =>
          List.map toString
            (List.filter truthy
               (List.map ResourceUID (asArray (Assignment a))))
      end
  end.

(** A task without its [children] array. *)
Definition stripChildren (task : ScheduleTask) : ScheduleTask :=
  withChildren task [].

(** Every child of a task of the tree passes the test of
    [findParentTask] against it. *)
Fixpoint wellNested (task : ScheduleTask) : bool :=
  forallb (fun child => nests child task && wellNested child)
          (children task).

(** The task list is in outline order: a parent comes before its child,
    and every task between the two has its own parent at or after that
    parent. *)
Definition inOutlineOrder (tasks : list ScheduleTask) : Prop :=
  forall i p,
    parentOf tasks i = Some p ->
    (p < i)%nat
    /\ forall j, (p < j < i)%nat ->
                 exists q, parentOf tasks j = Some q /\ (p <= q)%nat.

End ParserMore.

Module Queries.
Import Js Timeline Scheduling Scheduling.Entity.

Definition getTasks (s : Scheduling4DModule) : list ScheduleTask := tasks s.

Definition getTask (taskId : string) (s : Scheduling4DModule)
  : option ScheduleTask :=
  taskMap s !! taskId.

Definition getAllLinks (s : Scheduling4DModule)
  : gmap string (list TaskEntityLink) :=
  entityLinks s.

Definition getTimelineState (s : Scheduling4DModule) : TimelineState :=
  timelineState s.

Definition getActiveTasksOnDate (date : Date) (s : Scheduling4DModule)
  : list ScheduleTask :=
  filter (fun task =>
            dateGe date (ValidDate (Task.startDate task))
            && dateLe date (ValidDate (Task.endDate task)) = true)
         (getFlatTasks s).

End Queries.

(** The [use4D] hook: what its callbacks keep of the notifications, and its
    loop over [linkEntityToTask]. *)
Module Hook.
Import Timeline Scheduling Scheduling.Entity.

(** [onLinksUpdated]: [updated.set(taskId, links)] on a copy of the
    previous map.  The list is taken as it is when the callback is
    called. *)
Definition onLinksUpdated (prev : gmap string (list TaskEntityLink))
    (e : Event) : gmap string (list TaskEntityLink) :=
  match e with
  | LinksUpdated taskId links => <[taskId := links]> prev
  | _ => prev
  end.

(** The hook's [taskLinks] after the callbacks of a trace. *)
Definition taskLinks (events : list Event)
  : gmap string (list TaskEntityLink) :=
  foldl onLinksUpdated ∅ events.

(** [onTimelineStateChanged]: [setTimelineState(state)]. *)
Definition onTimelineStateChanged (prev : option TimelineState) (e : Event)
  : option TimelineState :=
  match e with
  | TimelineStateChanged state => Some state
  | _ => prev
  end.

(** The last state the hook was told, if any. *)
Definition lastTimelineState (events : list Event) : option TimelineState :=
  foldl onTimelineStateChanged None events.

(** The last [onTimelineStateChanged] that was sent, if any, carries the
    timeline state of the module created at [t0]. *)
Definition timelineTold (t0 : Z) (s : Scheduling4DModule) : Prop :=
  lastTimelineState (trace s) = Some (timelineState s)
  \/ (lastTimelineState (trace s) = None
      /\ timelineState s = timelineState (create t0)).

(** [linkEntitiesToTask]: [entities.forEach] over [linkEntityToTask]; the
    loop is taken to read one clock value. *)
Definition linkEntitiesToTask (now : Z) (taskId : string)
    (entities : list EntityInfo) (s : Scheduling4DModule)
  : Scheduling4DModule :=
  foldl (fun s entity => linkEntityToTask now taskId entity s) s entities.

End Hook.

(** * Properties *)

(** ** Forests given by parent pointers *)

Module ForestFacts.
Import Forest.

Section Facts.

Variable n : nat.
Variable parent : nat -> option nat.
Variable m : nat -> nat.
Variable M : nat.

Hypothesis parent_lt : forall i p, parent i = Some p -> (p < n)%nat.
Hypothesis parent_m : forall i p, parent i = Some p -> (m p < m i)%nat.
Hypothesis m_le : forall i, (i < n)%nat -> (m i <= M)%nat.

Local Abbreviation kids := (kids n parent).
Local Abbreviation roots := (roots n parent).
Local Abbreviation up := (up parent).
Local Abbreviation walk := (walk n parent).

Lemma elem_of_kids c p : c ∈ kids p <-> (c < n)%nat /\ parent c = Some p.
Proof.
  unfold Forest.kids. rewrite list_elem_of_filter, elem_of_seq. split.
  - intros [? ?]. split; [lia|done].
  - intros [? ?]. split; [done|lia].
Qed.

Lemma elem_of_roots r : r ∈ roots <-> (r < n)%nat /\ parent r = None.
Proof.
  unfold Forest.roots. rewrite list_elem_of_filter, elem_of_seq. split.
  - intros [? ?]. split; [lia|done].
  - intros [? ?]. split; [done|lia].
Qed.

Lemma NoDup_kids p : NoDup (kids p).
Proof. apply NoDup_filter, NoDup_seq. Qed.

Lemma NoDup_roots : NoDup roots.
Proof. apply NoDup_filter, NoDup_seq. Qed.

Lemma up_add k d x : up (k + d) x = up k x ≫= up d.
Proof.
  revert x. induction k as [|k IH]; intros x; simpl; [done|].
  destruct (parent x) as [p|]; simpl; [apply IH|done].
Qed.

Lemma up_snoc k x i :
  up (S k) x = Some i <-> exists c, up k x = Some c /\ parent c = Some i.
Proof.
  replace (S k) with (k + 1)%nat by lia. rewrite up_add.
  destruct (up k x) as [c|]; simpl; split.
  - destruct (parent c) as [q|] eqn:Hq; simpl; [|done].
    intros [= ->]. by exists c.
  - intros (c' & [= <-] & Hc). by rewrite Hc.
  - done.
  - by intros (c' & [=] & _).
Qed.

Lemma up_measure k x i : up k x = Some i -> (m i + k <= m x)%nat.
Proof.
  revert x. induction k as [|k IH]; intros x; simpl.
  - intros [= ->]. lia.
  - destruct (parent x) as [p|] eqn:Hp; simpl; [|done].
    intros Hk. apply IH in Hk. apply parent_m in Hp. lia.
Qed.

Lemma up_lt k x i : (x < n)%nat -> up k x = Some i -> (i < n)%nat.
Proof.
  destruct k as [|k]; simpl.
  - by intros ? [= ->].
  - intros _ Hk. apply up_snoc in Hk as (c & _ & Hc). eauto.
Qed.

(** Every node of [walk f i] has [i] among its ancestors. *)
Lemma walk_up f i x : x ∈ walk f i -> exists k, up k x = Some i.
Proof.
  revert i. induction f as [|f IH]; intros i; simpl.
  - by intros ?%elem_of_nil.
  - rewrite elem_of_cons, list_elem_of_In, in_flat_map.
    intros [->|(c & Hc & Hx)]; [by exists 0%nat|].
    apply list_elem_of_In, elem_of_kids in Hc as [_ Hc].
    apply list_elem_of_In, IH in Hx as [k Hk].
    exists (S k). apply up_snoc. eauto.
Qed.

Lemma walk_lt f i x : (i < n)%nat -> x ∈ walk f i -> (x < n)%nat.
Proof.
  revert i. induction f as [|f IH]; intros i Hi; simpl.
  - by intros ?%elem_of_nil.
  - rewrite elem_of_cons, list_elem_of_In, in_flat_map.
    intros [->|(c & Hc & Hx)]; [done|].
    apply list_elem_of_In, elem_of_kids in Hc as [Hc _].
    apply list_elem_of_In in Hx. eauto.
Qed.

(** Two distinct nodes with the same parent (or both without one) have no
    common descendant. *)
Lemma siblings_disjoint a b x k l :
  parent a = parent b -> up k x = Some a -> up l x = Some b ->
  (k <= l)%nat -> a = b.
Proof.
  intros Hab Ha Hb Hkl.
  replace l with (k + (l - k))%nat in Hb by lia.
  rewrite up_add, Ha in Hb. simpl in Hb.
  destruct (l - k)%nat as [|d]; simpl in Hb; [congruence|].
  destruct (parent a) as [p|] eqn:Hp; simpl in Hb; [|done].
  apply up_measure in Hb. symmetry in Hab. apply parent_m in Hab. lia.
Qed.

Lemma walk_disjoint f a b x :
  parent a = parent b -> x ∈ walk f a -> x ∈ walk f b -> a = b.
Proof.
  intros Hab [k Hk]%walk_up [l Hl]%walk_up.
  destruct (decide (k <= l)%nat).
  - by eapply siblings_disjoint.
  - symmetry. eapply (siblings_disjoint b a); eauto with lia.
Qed.

Lemma NoDup_flat_map {A B} (g : A -> list B) (l : list A) :
  NoDup l -> (forall a, a ∈ l -> NoDup (g a)) ->
  (forall a b x, a ∈ l -> b ∈ l -> x ∈ g a -> x ∈ g b -> a = b) ->
  NoDup (flat_map g l).
Proof.
  induction 1 as [|a l Ha Hl IH]; intros Hg Hdis; simpl; [constructor|].
  apply NoDup_app. split_and!.
  - apply Hg. left.
  - intros x Hx Hx'. apply list_elem_of_In, in_flat_map in Hx' as (b & Hb & Hx').
    apply list_elem_of_In in Hb, Hx'.
    assert (a = b) as ->
      by (eapply Hdis; eauto using list_elem_of_here, list_elem_of_further).
    done.
  - apply IH; eauto using list_elem_of_further.
Qed.

Lemma NoDup_walk f i : NoDup (walk f i).
Proof.
  revert i. induction f as [|f IH]; intros i; simpl; [constructor|].
  constructor.
  - rewrite list_elem_of_In, in_flat_map. intros (c & Hc & Hi).
    apply list_elem_of_In, elem_of_kids in Hc as [_ Hc].
    apply list_elem_of_In, walk_up in Hi as [k Hk].
    apply up_measure in Hk. apply parent_m in Hc. lia.
  - apply NoDup_flat_map; [apply NoDup_kids|auto|].
    intros a b x [_ Ha]%elem_of_kids [_ Hb]%elem_of_kids.
    apply walk_disjoint. congruence.
Qed.

Lemma NoDup_walk_roots f : NoDup (flat_map (walk f) roots).
Proof.
  apply NoDup_flat_map; [apply NoDup_roots|auto using NoDup_walk|].
  intros a b x [_ Ha]%elem_of_roots [_ Hb]%elem_of_roots.
  apply walk_disjoint. congruence.
Qed.

(** With enough fuel the traversal reaches every descendant. *)
Lemma walk_reach f i x k :
  (x < n)%nat -> up k x = Some i -> (m x < f + m i)%nat -> x ∈ walk f i.
Proof.
  revert i k. induction f as [|f IH]; intros i k Hx Hk Hf.
  - apply up_measure in Hk. lia.
  - simpl. destruct k as [|k].
    + simpl in Hk. injection Hk as ->. left.
    + right. apply up_snoc in Hk as (c & Hk & Hc).
      apply list_elem_of_In, in_flat_map. exists c. split.
      * apply list_elem_of_In, elem_of_kids. eauto using up_lt.
      * apply list_elem_of_In. apply (IH c k); [done..|].
        apply parent_m in Hc. lia.
Qed.

Lemma has_root x : (x < n)%nat -> exists k r, up k x = Some r /\ r ∈ roots.
Proof.
  remember (m x) as d eqn:Hd. revert x Hd.
  induction d as [d IH] using lt_wf_ind. intros x -> Hx.
  destruct (parent x) as [p|] eqn:Hp.
  - destruct (IH (m p) (parent_m _ _ Hp) p eq_refl (parent_lt _ _ Hp))
      as (k & r & Hk & Hr).
    exists (S k), r. simpl. by rewrite Hp.
  - exists 0%nat, x. split; [done|]. by apply elem_of_roots.
Qed.

Lemma walk_roots_complete f x :
  (M < f)%nat -> x ∈ flat_map (walk f) roots <-> (x < n)%nat.
Proof.
  intros Hf. rewrite list_elem_of_In, in_flat_map. split.
  - intros (r & Hr & Hx). apply list_elem_of_In in Hr, Hx.
    apply elem_of_roots in Hr as [Hr _]. eauto using walk_lt.
  - intros Hx. destruct (has_root x Hx) as (k & r & Hk & Hr).
    exists r. rewrite <- !list_elem_of_In. split; [done|].
    apply (walk_reach _ _ _ k); [done..|]. specialize (m_le x Hx). lia.
Qed.

(** The traversal from the roots lists every node exactly once. *)
Lemma walk_roots_perm f :
  (M < f)%nat -> flat_map (walk f) roots ≡ₚ seq 0 n.
Proof.
  intros Hf. apply NoDup_Permutation.
  - apply NoDup_walk_roots.
  - apply NoDup_seq.
  - intros x. rewrite walk_roots_complete, elem_of_seq by done. lia.
Qed.

End Facts.

End ForestFacts.

(** ** The schedule parser *)

Module ParserFacts.
Import Js Task Parser Forest ForestFacts.

Lemma findIndex_Some {A} (p : A -> bool) (l : list A) (i : nat) :
  findIndex p l = Some i -> exists x, l !! i = Some x /\ p x = true.
Proof.
  revert i. induction l as [|x l IH]; intros i; simpl; [done|].
  destruct (p x) eqn:Hp.
  - intros [= <-]. by exists x.
  - destruct (findIndex p l) as [j|]; simpl; [|done].
    intros [= <-]. by apply IH.
Qed.

(** A search that ends normally has evaluated the test on every element up
    to the one it found, and each of them normally. *)
Lemma findFirst_normal {A} (p : A -> Completion bool) (l : list A) r :
  findFirst p l = Normal r ->
  r = findIndex (fun x => match p x with
                          | Normal found => found
                          | Throw _ => false
                          end) l.
Proof.
  revert r. induction l as [|x l IH]; intros r; simpl; [congruence|].
  destruct (p x) as [[|]|e]; simpl; [congruence| |done].
  destruct (findFirst p l) as [i|e]; simpl; [|done].
  intros [= <-]. f_equal. by apply IH.
Qed.

Lemma findFirst_total {A} (p : A -> Completion bool) (l : list A) :
  Forall (fun x => exists found, p x = Normal found) l ->
  exists r, findFirst p l = Normal r.
Proof.
  induction 1 as [|x l [found Hx] _ [r IH]]; simpl; [by eexists|].
  rewrite Hx. simpl. destruct found; [by eexists|].
  rewrite IH. simpl. by eexists.
Qed.

Lemma prefix_length (p s : string) :
  String.prefix p s = true -> (String.length p <= String.length s)%nat.
Proof.
  revert s. induction p as [|a p IH]; intros [|b s]; simpl; try (done || lia).
  destruct (Ascii.ascii_dec a b); [|done].
  intros Hp%IH. lia.
Qed.

Lemma length_append (s1 s2 : string) :
  String.length (s1 +:+ s2) = (String.length s1 + String.length s2)%nat.
Proof. induction s1 as [|a s1 IH]; simpl; [done|]. by rewrite IH. Qed.

(** A parent's outline number is strictly shorter than its child's. *)
Lemma isParentOf_shorter (task potentialParent : ScheduleTask) :
  isParentOf task potentialParent = Normal true ->
  (outlineLength potentialParent < outlineLength task)%nat.
Proof.
  unfold isParentOf, outlineLength, startsWith.
  destruct (negb _); [done|]. destruct (negb _); [done|].
  destruct (negb _); [done|].
  destruct (outlineNumber task) as [| | |number]; try done.
  intros [= Hp%prefix_length]. rewrite length_append in Hp.
  simpl in *. lia.
Qed.

Lemma nests_Normal (task potentialParent : ScheduleTask) :
  nests task potentialParent = true <->
  isParentOf task potentialParent = Normal true.
Proof.
  unfold nests. destruct (isParentOf task potentialParent) as [[|]|e];
    split; congruence.
Qed.

(** The test throws on no task whose outline number is a string or
    absent. *)
Lemma isParentOf_total (task potentialParent : ScheduleTask) :
  isStringOrFalsy (outlineNumber task) = true ->
  exists found, isParentOf task potentialParent = Normal found.
Proof.
  unfold isParentOf, isStringOrFalsy.
  destruct (negb (_ =? _)%float); [by eexists|].
  destruct (outlineNumber task) as [| | |number]; simpl;
    try (intros ->; by eexists).
  - by eexists.
  - intros _. repeat (destruct (negb _); [by eexists|]). by eexists.
Qed.

Lemma findParentTask_normal (task : ScheduleTask)
    (allTasks : list ScheduleTask) r :
  findParentTask task allTasks = Normal r ->
  r = if (outlineLevel task <=? 1)%float then None
      else findIndex (nests task) allTasks.
Proof.
  unfold findParentTask. destruct (_ <=? _)%float; [congruence|].
  apply findFirst_normal.
Qed.

Lemma findParentTask_total (task : ScheduleTask)
    (allTasks : list ScheduleTask) :
  (outlineLevel task <=? 1)%float = true
  \/ isStringOrFalsy (outlineNumber task) = true ->
  exists r, findParentTask task allTasks = Normal r.
Proof.
  unfold findParentTask. intros [-> | Hn]; [by eexists|].
  destruct (_ <=? _)%float; [by eexists|].
  apply findFirst_total, Forall_forall. intros p _.
  by apply isParentOf_total.
Qed.

Section Hierarchy.

Variable tasks : list ScheduleTask.

Local Abbreviation parentOf := (parentOf tasks).
Local Abbreviation depthOf := (depthOf tasks).
Local Abbreviation taskIdOf := (taskIdOf tasks).
Local Abbreviation n := (length tasks).

Lemma parentOf_lt i p : parentOf i = Some p -> (p < n)%nat.
Proof.
  unfold Parser.parentOf.
  destruct (tasks !! i) as [task|]; simpl; [|done].
  case_match; [done|]. intros (x & Hx & _)%findIndex_Some.
  by eapply lookup_lt_Some.
Qed.

Lemma parentOf_depth i p : parentOf i = Some p -> (depthOf p < depthOf i)%nat.
Proof.
  unfold Parser.parentOf, Parser.depthOf.
  destruct (tasks !! i) as [task|]; simpl; [|done].
  case_match; [done|]. intros (x & -> & Hx)%findIndex_Some. simpl.
  by apply isParentOf_shorter, nests_Normal.
Qed.

Lemma depthOf_le i : (i < n)%nat -> (depthOf i < depthBound tasks)%nat.
Proof.
  intros Hi. unfold Parser.depthOf, depthBound.
  destruct (lookup_lt_is_Some_2 tasks i Hi) as [task Ht]. rewrite Ht. simpl.
  apply Nat.lt_succ_r, max_list_elem_of_le, list_elem_of_fmap.
  exists task. split; [done|]. by eapply list_elem_of_lookup_2.
Qed.

Local Abbreviation kids := (kids n parentOf).
Local Abbreviation roots := (roots n parentOf).

Local Abbreviation attached := (attached tasks).

Lemma attached_step i :
  match parentOf i with
  | Some parent => pushChild parent i (attached i)
  | None => pushRoot i (attached i)
  end = attached (S i).
Proof.
  unfold Parser.attached, pushChild, pushRoot.
  rewrite seq_S, Nat.add_0_l.
  cbn [childrenOf rootTasks].
  destruct (parentOf i) as [p|] eqn:Hp; f_equal.
  - apply list_eq. intros q. rewrite list_lookup_alter, !list_lookup_fmap.
    destruct (seq 0 n !! q) as [q'|] eqn:Hq; simpl.
    + apply lookup_seq in Hq as [-> _]. simpl.
      rewrite filter_app, (filter_singleton _ _ []).
      destruct (decide (p = q)) as [->|Hne]; simpl.
      * rewrite lookup_seq_lt by (eapply parentOf_lt; eauto).
        simpl. by rewrite decide_True.
      * rewrite decide_False by congruence. by rewrite app_nil_r.
    + destruct (decide (p = q)) as [->|Hne]; simpl; [|done].
      by rewrite Hq.
  - rewrite filter_app, (filter_singleton _ _ []).
    rewrite decide_False by congruence. by rewrite app_nil_r.
  - apply list_fmap_ext. intros _ q _.
    rewrite filter_app, (filter_singleton _ _ []).
    rewrite decide_False by congruence. by rewrite app_nil_r.
  - rewrite filter_app, (filter_singleton _ _ []).
    by rewrite decide_True.
Qed.

(** When the second pass ends normally, the store holds the forest that
    [parentOf] describes. *)
Lemma secondPass_attached done rest h :
  tasks = done ++ rest ->
  secondPass tasks (length done) rest (attached (length done)) = Normal h ->
  h = attached n.
Proof.
  revert done. induction rest as [|task rest IH]; intros done Ht; simpl.
  - intros [= <-]. by rewrite Ht, app_nil_r.
  - destruct (findParentTask task tasks) as [r|e] eqn:Hr; simpl; [|done].
    apply findParentTask_normal in Hr.
    assert (parentOf (length done) = r) as <-.
    { unfold Parser.parentOf. rewrite Ht at 1.
      by rewrite list_lookup_middle. }
    rewrite attached_step.
    replace (S (length done)) with (length (done ++ [task]))
      by (rewrite length_app; simpl; lia).
    apply IH. by rewrite <- app_assoc.
Qed.

Lemma secondPass_total i rest h :
  Forall (fun task => exists r, findParentTask task tasks = Normal r) rest ->
  exists h', secondPass tasks i rest h = Normal h'.
Proof.
  intros Hrest. revert i h.
  induction Hrest as [|task rest [r Hr] _ IH]; intros i h; simpl.
  - by eexists.
  - rewrite Hr. simpl. apply IH.
Qed.

Lemma attached_0 :
  {| childrenOf := replicate n []; rootTasks := [] |} = attached 0.
Proof.
  unfold Parser.attached. f_equal; simpl.
  apply list_eq. intros q. rewrite list_lookup_fmap.
  destruct (decide (q < n)%nat).
  - by rewrite lookup_replicate_2, lookup_seq_lt.
  - rewrite lookup_seq_ge by lia. apply lookup_replicate_None. lia.
Qed.

Lemma buildHierarchy_attached h :
  buildHierarchy tasks = Normal h -> h = attached n.
Proof.
  unfold buildHierarchy. rewrite attached_0.
  by apply (secondPass_attached []).
Qed.

Lemma buildHierarchy_total :
  Forall (fun task => exists r, findParentTask task tasks = Normal r) tasks ->
  exists h, buildHierarchy tasks = Normal h.
Proof. apply secondPass_total. Qed.

Local Abbreviation built := (attached n).

Lemma childrenOf_built i :
  (i < n)%nat -> childrenOf built !! i = Some (kids i).
Proof.
  intros Hi. simpl. by rewrite list_lookup_fmap, lookup_seq_lt.
Qed.

Lemma rootTasks_built : rootTasks built = roots.
Proof. done. Qed.

(** Reading a task object out of the store succeeds when the fuel covers
    the outline numbers that are longer than its own. *)
Lemma snapshot_is_Some fuel i :
  (i < n)%nat -> (depthBound tasks <= fuel + depthOf i)%nat ->
  is_Some (snapshot fuel tasks built i).
Proof.
  revert i. induction fuel as [|fuel IH]; intros i Hi Hf.
  - pose proof (depthOf_le i Hi). lia.
  - cbn [snapshot]. destruct (lookup_lt_is_Some_2 tasks i Hi) as [task ->].
    rewrite childrenOf_built by done. simpl.
    destruct (mapM_is_Some_2 (snapshot fuel tasks built) (kids i)) as [ks ->];
      [|by eexists].
    apply Forall_forall. intros c [Hc Hp]%(elem_of_kids n parentOf).
    apply IH; [done|]. apply parentOf_depth in Hp. lia.
Qed.

(** The traversal of a task read out of the store visits the objects that
    the traversal by index visits, in the same order. *)
Lemma snapshot_traverse fuel i t :
  snapshot fuel tasks built i = Some t ->
  taskId <$> traverse t = taskIdOf <$> walk n parentOf fuel i.
Proof.
  revert i t. induction fuel as [|fuel IH]; intros i t; [done|].
  cbn [snapshot].
  destruct (tasks !! i) as [task|] eqn:Ht; simpl; [|done].
  rewrite childrenOf_built by (by eapply lookup_lt_Some). simpl.
  destruct (mapM _ (kids i)) as [ks|] eqn:Hks; simpl; [|done].
  intros [= <-]. simpl. f_equal.
  - unfold Parser.taskIdOf. by rewrite Ht.
  - apply mapM_Some_1 in Hks. clear Ht.
    induction Hks as [|c k cs ks Hc _ IHks]; simpl; [done|].
    rewrite !fmap_app. f_equal; [by apply IH|apply IHks].
Qed.

Lemma snapshot_forest fuel rs ts :
  Forall2 (fun r t => snapshot fuel tasks built r = Some t) rs ts ->
  taskId <$> flat_map traverse ts
  = taskIdOf <$> flat_map (walk n parentOf fuel) rs.
Proof.
  induction 1 as [|r t rs ts Hr _ IHts]; cbn [flat_map]; [done|].
  rewrite !fmap_app. f_equal; [by apply snapshot_traverse|done].
Qed.

Lemma taskIdOf_seq : taskIdOf <$> seq 0 n = taskId <$> tasks.
Proof.
  apply list_eq. intros i. rewrite !list_lookup_fmap.
  destruct (tasks !! i) as [task|] eqn:Ht; simpl.
  - rewrite lookup_seq_lt by (by eapply lookup_lt_Some). simpl.
    unfold Parser.taskIdOf. by rewrite Ht.
  - by rewrite lookup_seq_ge by (by apply lookup_ge_None).
Qed.

(** Flattening the tree that the second pass builds lists every task of the
    first pass exactly once. *)
Lemma hierarchy_flatten :
  exists trees,
    mapM (snapshot (depthBound tasks) tasks built) (rootTasks built)
      = Some trees
    /\ taskId <$> flattenTasks trees ≡ₚ taskId <$> tasks.
Proof.
  destruct (mapM_is_Some_2 (snapshot (depthBound tasks) tasks built)
              (rootTasks built)) as [trees Htrees].
  { apply Forall_forall. rewrite rootTasks_built.
    intros r [Hr _]%(elem_of_roots n parentOf).
    apply snapshot_is_Some; [done|lia]. }
  exists trees. split; [done|].
  apply mapM_Some_1 in Htrees. rewrite rootTasks_built in Htrees.
  unfold flattenTasks. rewrite (snapshot_forest _ _ _ Htrees), <- taskIdOf_seq.
  apply fmap_Permutation.
  apply (walk_roots_perm n parentOf depthOf (pred (depthBound tasks))).
  - apply parentOf_lt.
  - apply parentOf_depth.
  - intros i Hi. pose proof (depthOf_le i Hi). lia.
  - unfold depthBound. lia.
Qed.

End Hierarchy.

Section Claims.

Variable dateParse : string -> option Z.
Variable now : Z.
Variable parseFloat : string -> float.
Variable regExpMatch : string -> string -> option string.

Local Abbreviation taskLiteral := (taskLiteral dateParse now).
Local Abbreviation newTask := (newTask dateParse now parseFloat regExpMatch).
Local Abbreviation firstPass :=
  (firstPass dateParse now parseFloat regExpMatch).
Local Abbreviation parseTasks :=
  (parseTasks dateParse now parseFloat regExpMatch).

Lemma parseDuration_total (durationString : JsVal) :
  isStringOrFalsy durationString = true ->
  exists duration,
    parseDuration parseFloat regExpMatch durationString = Normal duration.
Proof.
  unfold parseDuration, isStringOrFalsy.
  destruct durationString as [|b|x|s]; simpl;
    try (intros ->; by eexists); try by eexists.
  intros _. repeat case_match; by eexists.
Qed.

(** The first pass, when it ends normally, has built the object literal of
    every record with a truthy [UID], in input order. *)
Lemma firstPass_normal (taskArray : list TaskData) tasks :
  firstPass taskArray = Normal tasks ->
  tasks = taskLiteral <$> withIdentifier taskArray.
Proof.
  unfold withIdentifier. revert tasks.
  induction taskArray as [|taskData rest IH]; intros tasks; simpl;
    [congruence|].
  rewrite filter_cons. destruct (truthy (UID taskData)); simpl; [|apply IH].
  unfold Parser.newTask.
  destruct (parseDuration _ _ _) as [duration|e]; simpl; [|done].
  destruct (Parser.firstPass _ _ _ _ rest) as [tasks'|e]; simpl; [|done].
  intros [= <-]. f_equal. by apply IH.
Qed.

Lemma firstPass_total (taskArray : list TaskData) :
  Forall (fun taskData => isStringOrFalsy (Duration taskData) = true)
         (withIdentifier taskArray) ->
  firstPass taskArray = Normal (taskLiteral <$> withIdentifier taskArray).
Proof.
  unfold withIdentifier.
  induction taskArray as [|taskData rest IH]; simpl; [done|].
  rewrite filter_cons. destruct (truthy (UID taskData)); simpl; [|apply IH].
  intros [Hd Hrest]%Forall_cons. unfold Parser.newTask.
  destruct (parseDuration_total _ Hd) as [duration ->]. simpl.
  by rewrite (IH Hrest).
Qed.

Lemma firstPass_taskIds (taskArray : list TaskData) tasks :
  firstPass taskArray = Normal tasks ->
  taskId <$> tasks
  = (fun taskData => toString (UID taskData)) <$> withIdentifier taskArray.
Proof.
  intros ->%firstPass_normal. by rewrite <- list_fmap_compose.
Qed.

Lemma firstPass_app (l1 l2 : list TaskData) :
  firstPass (l1 ++ l2)
  = andThen (firstPass l1) (fun tasks1 =>
    andThen (firstPass l2) (fun tasks2 => Normal (tasks1 ++ tasks2))).
Proof.
  induction l1 as [|taskData l1 IH]; simpl.
  - by destruct (firstPass l2).
  - destruct (truthy (UID taskData)); simpl; [|done].
    destruct (newTask taskData) as [task|e]; simpl; [|done].
    rewrite IH. destruct (firstPass l1) as [tasks1|e]; simpl; [|done].
    by destruct (firstPass l2).
Qed.

(** A parse that ends normally has read the tree out of the store that the
    second pass leaves for the object literals of the kept records. *)
Lemma parseTasks_unfold (tasksData : TasksData) r :
  parseTasks tasksData = Normal r ->
  let tasks := taskLiteral <$> withIdentifier (toArray tasksData) in
  let h := attached tasks (length tasks) in
  r = mapM (snapshot (depthBound tasks) tasks h) (rootTasks h).
Proof.
  unfold Parser.parseTasks.
  destruct (firstPass (toArray tasksData)) as [tasks|e] eqn:Hfirst;
    cbn [andThen]; [|done].
  destruct (buildHierarchy tasks) as [h|e] eqn:Hh; cbn [andThen]; [|done].
  apply buildHierarchy_attached in Hh as ->.
  apply firstPass_normal in Hfirst as ->. by intros [= <-].
Qed.

(** The tree of a parse that ends normally holds every task of the first
    pass exactly once. *)
Lemma parseTasks_normal (tasksData : TasksData) r :
  parseTasks tasksData = Normal r ->
  exists trees,
    r = Some trees
    /\ taskId <$> flattenTasks trees
       ≡ₚ (fun taskData => toString (UID taskData))
            <$> withIdentifier (toArray tasksData).
Proof.
  unfold Parser.parseTasks.
  destruct (firstPass (toArray tasksData)) as [tasks|e] eqn:Hfirst;
    simpl; [|done].
  destruct (buildHierarchy tasks) as [h|e] eqn:Hh; simpl; [|done].
  apply buildHierarchy_attached in Hh as ->. intros [= <-].
  rewrite <- (firstPass_taskIds _ _ Hfirst).
  destruct (hierarchy_flatten tasks) as (trees & Htrees & Hperm).
  by exists trees.
Qed.

(** No call throws when the records that the first pass keeps hold strings
    where a string method is called. *)
Lemma parseTasks_total (tasksData : TasksData) :
  Forall (fun taskData => readAsText taskData = true)
         (withIdentifier (toArray tasksData)) ->
  exists r, parseTasks tasksData = Normal r.
Proof.
  intros Htext. unfold Parser.parseTasks.
  rewrite firstPass_total.
  2:{ eapply Forall_impl; [exact Htext|]. intros taskData.
      unfold readAsText. by intros [? _]%andb_true_iff. }
  simpl.
  destruct (buildHierarchy_total
              (taskLiteral <$> withIdentifier (toArray tasksData)))
    as [h ->]; [|by eexists].
  apply Forall_fmap. eapply Forall_impl; [exact Htext|].
  intros taskData Ht. unfold readAsText in Ht.
  apply andb_true_iff in Ht as [_ Hn]. apply findParentTask_total. right.
  simpl. unfold or, isStringOrFalsy in *.
  destruct (OutlineNumber taskData) as [|b|x|s]; [done| | |].
  - by apply negb_true_iff in Hn as ->.
  - by apply negb_true_iff in Hn as ->.
  - by destruct (truthy (JsString s)).
Qed.


(** C10.  A record whose [UID] is absent, the empty string or the number 0
    leaves no task in the first pass, wherever it stands in the input, and
    the parse is the same as without the record. *)
Theorem falsy_UID_skipped (taskData : TaskData)
    (before after : list TaskData) :
  UID taskData = JsUndefined \/ UID taskData = JsString EmptyString
  \/ UID taskData = JsNumber 0 ->
  firstPass [taskData] = Normal []
  /\ firstPass (before ++ taskData :: after) = firstPass (before ++ after)
  /\ parseTasks (TaskArray (before ++ taskData :: after))
     = parseTasks (TaskArray (before ++ after))
  /\ parseTasks (OneTask taskData) = Normal (Some []).
Proof.
  intros Hfalsy.
  assert (truthy (UID taskData) = false) as Hf
    by (destruct Hfalsy as [->|[->| ->]]; done).
  assert (firstPass [taskData] = Normal []) as Hone
    by (simpl; by rewrite Hf).
  assert (firstPass (before ++ taskData :: after)
          = firstPass (before ++ after)) as Hskip.
  { rewrite !firstPass_app. simpl. by rewrite Hf. }
  split_and!; [done|done| |].
  - unfold Parser.parseTasks. simpl. by rewrite Hskip.
  - unfold Parser.parseTasks. simpl toArray. by rewrite Hone.
Qed.

End Claims.



(** An instance of C10: the record with [UID] 0 between two records with
    identifiers 1 and 2. *)
Lemma falsy_UID_skipped_witness :
  let r (uid : float) :=
    mkTaskData (JsNumber uid) (JsString "Task") JsUndefined JsUndefined
               JsUndefined (JsNumber 1) JsUndefined in
  let firstPass :=
    Parser.firstPass (fun _ => None) 0 (fun _ => 0%float)
      (fun _ _ => None) in
  let parseTasks :=
    Parser.parseTasks (fun _ => None) 0 (fun _ => 0%float)
      (fun _ _ => None) in
  firstPass [r 0%float] = Normal []
  /\ firstPass ([r 1%float] ++ r 0%float :: [r 2%float])
     = firstPass ([r 1%float] ++ [r 2%float])
  /\ parseTasks (TaskArray ([r 1%float] ++ r 0%float :: [r 2%float]))
     = parseTasks (TaskArray ([r 1%float] ++ [r 2%float]))
  /\ parseTasks (OneTask (r 0%float)) = Normal (Some []).
Proof.
  intros r firstPass parseTasks.
  apply (falsy_UID_skipped (fun _ => None) 0 (fun _ => 0%float)
           (fun _ _ => None) (r 0%float) [r 1%float] [r 2%float]).
  right. right. reflexivity.
Defined.

(** The scenario of the specification, with the outline numbers 1 and 1.1
    as strings: one root with one child. *)
Example parseTasks_scenario :
  let r uid level number :=
    mkTaskData (JsNumber uid) JsUndefined JsUndefined JsUndefined
               JsUndefined (JsNumber level) (JsString number) in
  match Parser.parseTasks (fun _ => None) 0 (fun _ => 0%float)
          (fun _ _ => None) (TaskArray [r 1 1 "1"; r 2 2 "1.1"]%float) with
  | Normal (Some trees) =>
      (fun t : ScheduleTask => (taskId t, taskId <$> children t)) <$> trees
  | _ => []
  end = [("1", ["2"])].
Proof. vm_compute. reflexivity. Qed.
End ParserFacts.

(** ** The timeline engine *)

Module TimelineFacts.
Import Js Timeline Scheduling Scheduling.Entity.

Lemma flattenTasks_nonempty (ts : list ScheduleTask) :
  ts <> [] -> flattenTasks ts <> [].
Proof. destruct ts as [|[] ts]; [done|]. intros _. discriminate. Qed.

(** The loop of [calculateProjectTimeline] keeps the least start and the
    greatest end seen so far. *)
Lemma minMax_foldl (l : list ScheduleTask) (lo hi : Z) :
  let r := foldl minMaxStep (lo, hi) l in
  isMinimumOf (fst r) (lo :: (Task.startDate <$> l))
  /\ isMaximumOf (snd r) (hi :: (Task.endDate <$> l)).
Proof.
  revert lo hi. induction l as [|task l IH]; intros lo hi; simpl.
  - split; (split; [left|]); intros y ->%list_elem_of_singleton; lia.
  - specialize (IH (fst (minMaxStep (lo, hi) task))
                   (snd (minMaxStep (lo, hi) task))).
    rewrite <- surjective_pairing in IH. destruct IH as [[Hm1 Hm2] [HM1 HM2]].
    set (r := foldl minMaxStep (minMaxStep (lo, hi) task) l) in *.
    unfold minMaxStep in Hm1, Hm2, HM1, HM2. simpl in Hm1, Hm2, HM1, HM2.
    split; split.
    + apply elem_of_cons in Hm1 as [Hm1|Hm1]; [|by do 2 right].
      rewrite Hm1. destruct (Task.startDate task <? lo); [right; left|left].
    + intros y Hy. assert (fst r <= lo /\ fst r <= Task.startDate task) as [? ?].
      { pose proof (Hm2 _ (list_elem_of_here _ _)) as H0.
        destruct (Task.startDate task <? lo) eqn:Hlt; lia. }
      apply elem_of_cons in Hy as [->|Hy]; [done|].
      apply elem_of_cons in Hy as [->|Hy]; [done|].
      apply Hm2. by right.
    + apply elem_of_cons in HM1 as [HM1|HM1]; [|by do 2 right].
      rewrite HM1. destruct (Task.endDate task >? hi); [right; left|left].
    + intros y Hy. assert (hi <= snd r /\ Task.endDate task <= snd r) as [? ?].
      { pose proof (HM2 _ (list_elem_of_here _ _)) as H0.
        destruct (Task.endDate task >? hi) eqn:Hgt; lia. }
      apply elem_of_cons in Hy as [->|Hy]; [done|].
      apply elem_of_cons in Hy as [->|Hy]; [done|].
      apply HM2. by right.
Qed.

(** C8.  [loadTasks] with an empty task list leaves the whole timeline
    state, and so [startDate], [endDate] and [currentDate], as it was. *)
Theorem loadTasks_empty_keeps_timeline (s : Scheduling4DModule) :
  timelineState (loadTasks [] s) = timelineState s
  /\ startDate (timelineState (loadTasks [] s)) = startDate (timelineState s)
  /\ endDate (timelineState (loadTasks [] s)) = endDate (timelineState s)
  /\ currentDate (timelineState (loadTasks [] s))
     = currentDate (timelineState s).
Proof. by split_and!. Qed.

(** C4, as amended.  For a non-empty task list, [loadTasks] sets [startDate]
    to the least start date and [endDate] to the greatest end date of the
    flattened tree and [currentDate] to [startDate]; [isPlaying] (and the
    playback speed and the pending animation frame) stay as they were. *)
Theorem loadTasks_timeline (ts : list ScheduleTask) (s : Scheduling4DModule) :
  ts <> [] ->
  let t' := timelineState (loadTasks ts s) in
  isMinimumOf (startDate t') (Task.startDate <$> flattenTasks ts)
  /\ isMaximumOf (endDate t') (Task.endDate <$> flattenTasks ts)
  /\ currentDate t' = ValidDate (startDate t')
  /\ isPlaying t' = isPlaying (timelineState s)
  /\ playbackSpeed t' = playbackSpeed (timelineState s)
  /\ animationFrameId (loadTasks ts s) = animationFrameId s.
Proof.
  intros Hts%flattenTasks_nonempty. unfold loadTasks, calculateProjectTimeline.
  unfold getFlatTasks. cbn [tasks setTasks].
  destruct (flattenTasks ts) as [|first flat] eqn:Hflat; [done|].
  pose proof (minMax_foldl (first :: flat) (Task.startDate first)
                (Task.endDate first)) as [[Hm1 Hm2] [HM1 HM2]].
  destruct (foldl minMaxStep _ (first :: flat)) as [minDate maxDate].
  simpl in *. split_and!; try done.
  - split; [|intros y Hy; apply Hm2; by right].
    by apply elem_of_cons in Hm1 as [->|Hm1]; [left|].
  - split; [|intros y Hy; apply HM2; by right].
    by apply elem_of_cons in HM1 as [->|HM1]; [left|].
Qed.

(** An instance of C4: two tasks, the second with a child that ends
    last. *)
Lemma loadTasks_timeline_witness :
  let child :=
    Task.mkTask "task_3" "3" (JsString "C") 40 90 2 (JsString "2.1") [] in
  let ts :=
    [Task.mkTask "task_1" "1" (JsString "A") 10 20 1 (JsString "1") [];
     Task.mkTask "task_2" "2" (JsString "B") 5 30 1 (JsString "2") [child]] in
  let t' := timelineState (loadTasks ts (create 0)) in
  isMinimumOf (startDate t') (Task.startDate <$> flattenTasks ts)
  /\ isMaximumOf (endDate t') (Task.endDate <$> flattenTasks ts)
  /\ currentDate t' = ValidDate (startDate t')
  /\ isPlaying t' = isPlaying (timelineState (create 0))
  /\ playbackSpeed t' = playbackSpeed (timelineState (create 0))
  /\ animationFrameId (loadTasks ts (create 0)) = animationFrameId (create 0).
Proof.
  intros child ts. apply (loadTasks_timeline ts (create 0)). discriminate.
Defined.

(** C4 as stated fails: [loadTasks] on a module that is playing leaves it
    playing. *)
Lemma loadTasks_keeps_playing :
  let s := play 0 1 (create 0) in
  let ts :=
    [Task.mkTask "task_1" "1" (JsString "A") 10 20 1 JsUndefined []] in
  isPlaying (timelineState s) = true
  /\ isPlaying (timelineState (loadTasks ts s)) <> false
  /\ animationFrameId (loadTasks ts s) = Some 1%nat.
Proof. by split_and!. Qed.

Lemma timelineState_stopAnimation (s : Scheduling4DModule) :
  timelineState (stopAnimation s) = timelineState s.
Proof. unfold stopAnimation. by destruct (animationFrameId s). Qed.

Lemma timelineState_pause (s : Scheduling4DModule) :
  timelineState (pause s) = setIsPlaying false (timelineState s).
Proof. unfold pause. by rewrite timelineState_stopAnimation. Qed.

Lemma lastTime_stopAnimation (s : Scheduling4DModule) :
  lastTime (stopAnimation s) = lastTime s.
Proof. unfold stopAnimation. by destruct (animationFrameId s). Qed.

(** The timeline state that a tick leaves when the module is playing. *)
Lemma animate_playing (now : Z) (handle : nat) (s : Scheduling4DModule) :
  isPlaying (timelineState s) = true ->
  timelineState (animate now handle s)
  = if dateGt (advancedDate now s) (ValidDate (endDate (timelineState s)))
    then setCurrent (ValidDate (endDate (timelineState s)))
           (setIsPlaying false (timelineState s))
    else setCurrent (advancedDate now s) (timelineState s).
Proof.
  intros Hplay. unfold animate. rewrite Hplay. cbn [negb].
  cbn [timelineState setLastTime setAnimationFrameId emit].
  destruct (dateGt _ _); [|done].
  cbn [timelineState setTimelineState]. by rewrite timelineState_pause.
Qed.

(** A tick of a module that is playing records the clock reading. *)
Lemma animate_lastTime (now : Z) (handle : nat) (s : Scheduling4DModule) :
  isPlaying (timelineState s) = true ->
  lastTime (animate now handle s) = now.
Proof.
  intros Hplay. unfold animate. rewrite Hplay. cbn [negb].
  cbn [lastTime setAnimationFrameId emit].
  destruct (dateGt _ _); [|done].
  cbn [lastTime setTimelineState]. unfold pause.
  by rewrite lastTime_stopAnimation.
Qed.

(** C1, as amended.  [play] on a stopped module records the clock reading,
    and so does every tick of a playing module.  The tick computes the
    advanced date [new Date(currentDate + elapsed seconds * playbackSpeed
    days)], in the arithmetic of doubles and cut to whole milliseconds.
    When that date is a valid date after [endDate], the tick sets
    [currentDate] to [endDate] and [isPlaying] to false; when it is a valid
    date not after [endDate], the tick sets [currentDate] to it and the
    module keeps playing.  After the tick [currentDate] does not exceed
    [endDate]. *)
Theorem tick_clamps_at_endDate (now : Z) (handle : nat)
    (s : Scheduling4DModule) :
  isPlaying (timelineState s) = true ->
  let t := timelineState s in
  let s' := animate now handle s in
  let t' := timelineState s' in
  let elapsedSeconds := ((ofZ now - ofZ (lastTime s)) / 1000)%float in
  let advanced :=
    timeClip (getTime (currentDate t)
              + elapsedSeconds * playbackSpeed t * 24 * 60 * 60 * 1000)%float in
  lastTime s' = now
  /\ (forall start frame s0,
        isPlaying (timelineState s0) = false ->
        lastTime (play start frame s0) = start
        /\ isPlaying (timelineState (play start frame s0)) = true)
  /\ (forall date,
        advanced = ValidDate date -> endDate t < date ->
        currentDate t' = ValidDate (endDate t) /\ isPlaying t' = false)
  /\ (forall date,
        advanced = ValidDate date -> date <= endDate t ->
        currentDate t' = ValidDate date /\ isPlaying t' = true)
  /\ dateGt (currentDate t') (ValidDate (endDate t')) = false
  /\ endDate t' = endDate t.
Proof.
  intros Hplay t s' t' elapsedSeconds advanced.
  assert (advanced = advancedDate now s) as Hadv by done.
  split; [by apply animate_lastTime|].
  split.
  { intros start frame s0 Hstopped. unfold play. by rewrite Hstopped. }
  subst t' s'. rewrite (animate_playing now handle s Hplay), <- Hadv. fold t.
  destruct advanced as [date|]; simpl.
  - destruct (endDate t <? date) eqn:Hcmp; simpl.
    + split_and!; [done| |lia|done]. intros ? [= <-]. lia.
    + split_and!; [|by intros ? [= <-]|lia|done]. intros ? [= <-]. lia.
  - by split_and!.
Qed.

(** A tick keeps [currentDate] from exceeding [endDate], whether the module
    is playing or not, so this holds along any sequence of ticks. *)
Lemma ticks_keep_clamp (ticks : list (Z * nat)) (s : Scheduling4DModule) :
  dateGt (currentDate (timelineState s))
         (ValidDate (endDate (timelineState s))) = false ->
  let s' := foldl (fun s tick => animate (fst tick) (snd tick) s) s ticks in
  dateGt (currentDate (timelineState s'))
         (ValidDate (endDate (timelineState s'))) = false.
Proof.
  revert s. induction ticks as [|[now handle] ticks IH]; intros s Hs; [done|].
  apply IH. simpl.
  destruct (isPlaying (timelineState s)) eqn:Hplay.
  - rewrite (animate_playing now handle s Hplay).
    destruct (dateGt (advancedDate now s) _) eqn:Hcmp; simpl; [lia|done].
  - unfold animate. by rewrite Hplay.
Qed.

(** An instance of C1.  At speed 2, a tick 50 seconds after [play] computes
    a date 100 days on, past the end of the 90 days of a new module: the
    date is clamped and the module stops.  A tick 5 seconds after [play]
    advances the date by 10 days (the scenario of the specification). *)
Lemma tick_clamps_witness :
  let s := setPlaybackSpeed 2 (play 1000 1 (create 0)) in
  let clamped := animate 51000 2 s in
  let advanced := animate 6000 2 s in
  (lastTime clamped = 51000
   /\ currentDate (timelineState clamped) = ValidDate (90 * msPerDay)
   /\ isPlaying (timelineState clamped) = false)
  /\ (lastTime advanced = 6000
      /\ currentDate (timelineState advanced) = ValidDate (10 * msPerDay)
      /\ isPlaying (timelineState advanced) = true).
Proof.
  intros s clamped advanced. split.
  - destruct (tick_clamps_at_endDate 51000 2 s eq_refl)
      as (Hlast & _ & Hclamp & _).
    split; [exact Hlast|].
    apply (Hclamp (100 * msPerDay)); by vm_compute.
  - destruct (tick_clamps_at_endDate 6000 2 s eq_refl)
      as (Hlast & _ & _ & Hadvance & _).
    split; [exact Hlast|].
    apply (Hadvance (10 * msPerDay)); by vm_compute.
Defined.

(** C1 as stated fails.  At speed 1, a tick one millisecond after [play]
    advances the date by 86399 ms, not by the 86400 ms that are a
    thousandth of a day: the product is rounded and then cut.  At speed
    [2e8], a tick one second after [play] computes a time value beyond the
    range of [Date]; the advanced date, 200 million days on, exceeds
    [endDate], yet [currentDate] becomes the Invalid Date instead of
    [endDate], and the module keeps playing. *)
Lemma tick_misses_endDate :
  let s := play 1000 1 (create 0) in
  let fast := setPlaybackSpeed 2e8 s in
  currentDate (timelineState (animate 1001 2 s)) = ValidDate 86399
  /\ 0 + 1 * 200000000 * msPerDay > endDate (timelineState fast)
  /\ currentDate (timelineState (animate 2000 2 fast)) = InvalidDate
  /\ isPlaying (timelineState (animate 2000 2 fast)) = true.
Proof. by vm_compute. Qed.

Lemma updateVisualization_call (s : Scheduling4DModule) (taskId : string)
    (links : list TaskEntityLink) (task : ScheduleTask) :
  entityLinks s !! taskId = Some links ->
  taskMap s !! taskId = Some task ->
  (links, taskVisual (currentDate (timelineState s)) task)
  ∈ updateVisualization true s.
Proof.
  intros Hlinks Htask. unfold updateVisualization. cbn [negb].
  apply list_elem_of_omap. exists (taskId, links). split.
  - by apply elem_of_map_to_list.
  - by rewrite Htask.
Qed.

(** C5, as amended.  For a linked task that starts at [D1] and ends at [D2]
    with [D1 < D2], the recompute classifies [currentDate = D1] as in
    progress (started and not completed; opacity 1 and the yellow tint),
    [currentDate = D2] as completed (opacity 1 and the green tint) and
    [currentDate < D1] as not started (opacity 0.2 and the gray tint), and,
    when the rendering world is set, calls [applyVisualizationToEntities]
    on the task's links with these settings.  Without a rendering world it
    returns before it classifies anything. *)
Theorem status_boundaries (s : Scheduling4DModule) (taskId : string)
    (links : list TaskEntityLink) (task : ScheduleTask) :
  entityLinks s !! taskId = Some links ->
  taskMap s !! taskId = Some task ->
  Task.startDate task < Task.endDate task ->
  let now := currentDate (timelineState s) in
  (now = ValidDate (Task.startDate task) ->
     isStarted now task = true /\ isCompleted now task = false
     /\ taskVisual now task = mkVisual true 1 lightYellow
     /\ (links, mkVisual true 1 lightYellow) ∈ updateVisualization true s)
  /\ (now = ValidDate (Task.endDate task) ->
     isCompleted now task = true
     /\ taskVisual now task = mkVisual true 1 lightGreen
     /\ (links, mkVisual true 1 lightGreen) ∈ updateVisualization true s)
  /\ (forall date, now = ValidDate date -> date < Task.startDate task ->
     isStarted now task = false
     /\ taskVisual now task = mkVisual true (2 # 10) gray
     /\ (links, mkVisual true (2 # 10) gray) ∈ updateVisualization true s)
  /\ updateVisualization false s = [].
Proof.
  intros Hlinks Htask Hlt now.
  pose proof (updateVisualization_call s taskId links task Hlinks Htask)
    as Hcall. fold now in Hcall.
  unfold taskVisual, isStarted, isCompleted in *.
  split_and!; [intros Hnow|intros Hnow|intros date Hnow Hdate|done];
    rewrite Hnow in *; simpl in *.
  - assert ((Task.startDate task <=? Task.startDate task) = true) as Hs by lia.
    assert ((Task.endDate task <=? Task.startDate task) = false) as He by lia.
    rewrite Hs, He in *. done.
  - assert ((Task.startDate task <=? Task.endDate task) = true) as Hs by lia.
    assert ((Task.endDate task <=? Task.endDate task) = true) as He by lia.
    rewrite Hs, He in *. done.
  - assert ((Task.startDate task <=? date) = false) as Hs by lia.
    rewrite Hs in *. done.
Qed.

(** An instance of C5: a task from day 10 to day 20, linked to one entity,
    on the day it starts. *)
Lemma status_boundaries_witness :
  let task :=
    Task.mkTask "task_1" "1" (JsString "A") 10 20 1 JsUndefined [] in
  let wall := mkEntity "g1" 7 "IfcWall" None in
  let s := setCurrentDate (ValidDate 10)
             (linkEntityToTask 0 "1" wall (loadTasks [task] (create 0))) in
  let links := getTaskLinks "1" s in
  let now := currentDate (timelineState s) in
  (now = ValidDate (Task.startDate task) ->
     isStarted now task = true /\ isCompleted now task = false
     /\ taskVisual now task = mkVisual true 1 lightYellow
     /\ (links, mkVisual true 1 lightYellow) ∈ updateVisualization true s)
  /\ (now = ValidDate (Task.endDate task) ->
     isCompleted now task = true
     /\ taskVisual now task = mkVisual true 1 lightGreen
     /\ (links, mkVisual true 1 lightGreen) ∈ updateVisualization true s)
  /\ (forall date, now = ValidDate date -> date < Task.startDate task ->
     isStarted now task = false
     /\ taskVisual now task = mkVisual true (2 # 10) gray
     /\ (links, mkVisual true (2 # 10) gray) ∈ updateVisualization true s)
  /\ updateVisualization false s = [].
Proof.
  intros task wall s links.
  apply (status_boundaries s "1" links task); reflexivity.
Defined.

(** C5 as stated fails: without a rendering world the recompute makes no
    call for a linked task on the day it starts. *)
Lemma no_world_no_classification :
  let task :=
    Task.mkTask "task_1" "1" (JsString "A") 10 20 1 JsUndefined [] in
  let wall := mkEntity "g1" 7 "IfcWall" None in
  let s := setCurrentDate (ValidDate 10)
             (linkEntityToTask 0 "1" wall (loadTasks [task] (create 0))) in
  taskMap s !! "1" = Some task
  /\ getTaskLinks "1" s <> []
  /\ currentDate (timelineState s) = ValidDate (Task.startDate task)
  /\ updateVisualization false s = [].
Proof. by split_and!. Qed.

End TimelineFacts.

(** ** The rule matcher and the link store *)

Module LinkFacts.
Import Js Timeline Scheduling Scheduling.Entity.

Lemma alreadyLinked_elem (e : Z) (links : list TaskEntityLink) :
  alreadyLinked e links = true <-> e ∈ entityExpressId <$> links.
Proof.
  unfold alreadyLinked. rewrite existsb_exists, list_elem_of_fmap.
  split; intros (l & H1 & H2); exists l.
  - apply list_elem_of_In in H1. split; [lia|done].
  - apply list_elem_of_In in H2. split; [done|lia].
Qed.

Lemma count_absent {A} (f : A -> Z) (e : Z) (l : list A) :
  e ∉ f <$> l -> length (filter (fun x => f x = e) l) = 0%nat.
Proof.
  induction l as [|x l IH]; simpl; [done|].
  rewrite not_elem_of_cons, filter_cons. intros [Hx Hl].
  rewrite decide_False by done. by apply IH.
Qed.

(** Under [NoDup] of the keys, a key that occurs is counted once. *)
Lemma count_unique {A} (f : A -> Z) (e : Z) (l : list A) :
  NoDup (f <$> l) -> e ∈ f <$> l ->
  length (filter (fun x => f x = e) l) = 1%nat.
Proof.
  induction l as [|x l IH]; simpl.
  - by intros _ ?%elem_of_nil.
  - rewrite NoDup_cons, elem_of_cons, filter_cons. intros [Hx Hl] He.
    destruct (decide (f x = e)) as [<-|Hne]; simpl.
    + f_equal. by apply count_absent.
    + apply IH; [done|]. by destruct He as [->|He].
Qed.

Lemma getTaskLinks_lookup (taskId : string) (s : Scheduling4DModule) links :
  entityLinks s !! taskId = Some links -> getTaskLinks taskId s = links.
Proof. unfold getTaskLinks. by intros ->. Qed.

(** What [linkEntityToTask] leaves in the store and on the trace. *)
Lemma link_lookup now taskId entity s (t' : string) :
  entityLinks (linkEntityToTask now taskId entity s) !! t'
  = if decide (t' = taskId)
    then Some (if alreadyLinked (expressId entity) (getTaskLinks taskId s)
               then getTaskLinks taskId s
               else getTaskLinks taskId s ++ [makeLink now taskId entity])
    else entityLinks s !! t'.
Proof.
  unfold linkEntityToTask, getTaskLinks.
  destruct (entityLinks s !! taskId) as [L|] eqn:HL; simpl.
  - rewrite HL. simpl. destruct (alreadyLinked _ L); simpl.
    + destruct (decide (t' = taskId)) as [->|]; [done|done].
    + destruct (decide (t' = taskId)) as [->|].
      * by rewrite lookup_insert_eq.
      * by rewrite lookup_insert_ne.
  - rewrite lookup_insert_eq. simpl.
    destruct (decide (t' = taskId)) as [->|].
    + by rewrite lookup_insert_eq.
    + by rewrite !lookup_insert_ne.
Qed.

Lemma link_getTaskLinks now taskId entity s :
  getTaskLinks taskId (linkEntityToTask now taskId entity s)
  = if alreadyLinked (expressId entity) (getTaskLinks taskId s)
    then getTaskLinks taskId s
    else getTaskLinks taskId s ++ [makeLink now taskId entity].
Proof.
  unfold getTaskLinks at 1. rewrite link_lookup. by rewrite decide_True.
Qed.

Lemma link_linked now taskId entity s :
  linked taskId (expressId entity) (linkEntityToTask now taskId entity s).
Proof.
  unfold linked. rewrite link_getTaskLinks.
  destruct (alreadyLinked _ (getTaskLinks taskId s)) eqn:H; [done|].
  apply alreadyLinked_elem. rewrite fmap_app. apply elem_of_app. right.
  simpl. left.
Qed.

Lemma link_mono now taskId entity s t e :
  linked t e s -> linked t e (linkEntityToTask now taskId entity s).
Proof.
  unfold linked, getTaskLinks at 2. rewrite link_lookup.
  destruct (decide (t = taskId)) as [->|]; [|done]. simpl.
  destruct (alreadyLinked (expressId entity) _); [done|].
  rewrite !alreadyLinked_elem, fmap_app, elem_of_app. by left.
Qed.

(** A second [linkEntityToTask] for the same task and entity changes
    nothing at all. *)
Lemma link_again now1 now2 taskId entity s :
  let s1 := linkEntityToTask now1 taskId entity s in
  linkEntityToTask now2 taskId entity s1 = s1.
Proof.
  intros s1. pose proof (link_linked now1 taskId entity s) as Hl.
  fold s1 in Hl. unfold linked in Hl.
  pose proof (link_lookup now1 taskId entity s taskId) as Hk.
  fold s1 in Hk. rewrite decide_True in Hk by done.
  unfold linkEntityToTask at 1. rewrite Hk. cbv zeta. by rewrite Hl.
Qed.

Section WithHost.

Variable RegExp : Type.
Variable newRegExp : string -> string -> Completion RegExp.
Variable test : RegExp -> string -> bool.

Local Abbreviation doesEntityMatchRule :=
  (doesEntityMatchRule RegExp newRegExp test).
Local Abbreviation applyRule := (applyRule RegExp newRegExp test).
Local Abbreviation applyRules := (applyRules RegExp newRegExp test).
Local Abbreviation applyRulesToEntities :=
  (applyRulesToEntities RegExp newRegExp test).
Local Abbreviation step := (step RegExp newRegExp test).
Local Abbreviation run := (run RegExp newRegExp test).

Lemma doesEntityMatchRule_normal (entity : EntityInfo) (r : LinkRule) :
  exists b, doesEntityMatchRule entity r = Normal b.
Proof.
  unfold Scheduling.doesEntityMatchRule.
  destruct (ruleType r); eauto.
  destruct (_ || _); eauto.
  destruct (newRegExp _ _); simpl; eauto.
Qed.

(** C6.  [doesEntityMatchRule] returns a boolean for every entity and rule
    and never throws.  For a [name_pattern] rule the result is false when
    the entity has no name (or an empty one) and when the pattern does not
    compile; for a [type_filter] rule it is true exactly when the type list
    is present and holds the entity's type; for [property_match] and for
    any other rule type it is false. *)
Theorem doesEntityMatchRule_total (entity : EntityInfo) (r : LinkRule) :
  exists b,
    doesEntityMatchRule entity r = Normal b
    /\ (ruleType r = name_pattern ->
        name entity = None \/ name entity = Some EmptyString
        \/ (exists p e, pattern (ruleConfig r) = Some p
                        /\ newRegExp p "i" = Throw e) ->
        b = false)
    /\ (ruleType r = type_filter ->
        (b = true <-> exists types, ifcTypes (ruleConfig r) = Some types
                                    /\ type entity ∈ types)
        /\ (ifcTypes (ruleConfig r) = None -> b = false))
    /\ (ruleType r = property_match -> b = false)
    /\ (forall tag, ruleType r = other_rule tag -> b = false).
Proof.
  unfold Scheduling.doesEntityMatchRule.
  destruct (ruleType r) eqn:Hr.
  - exists false. split_and!; try done.
  - destruct (negb (truthyStr (name entity))
              || negb (truthyStr (pattern (ruleConfig r)))) eqn:Hguard.
    + exists false. split_and!; done.
    + apply orb_false_elim in Hguard as [Hn Hp].
      apply negb_false_iff in Hn, Hp.
      destruct (name entity) as [nm|] eqn:Hname; [|done].
      destruct (pattern (ruleConfig r)) as [pat|] eqn:Hpat; [|done].
      simpl. destruct (newRegExp pat "i") as [regex|e] eqn:Hnew; simpl.
      * exists (test regex nm). split_and!; try done.
        intros _ [?|[[= ->]|(p & e & [= <-] & He)]]; [done|done|congruence].
      * exists false. split_and!; done.
  - destruct (ifcTypes (ruleConfig r)) as [types|] eqn:Ht.
    + exists (bool_decide (type entity ∈ types)). split_and!; try done.
      intros _. split; [|done]. rewrite bool_decide_eq_true. split.
      * intros Hin. by exists types.
      * by intros (types' & [= <-] & Hin).
    + exists false. split_and!; try done.
      intros _. split; [|done]. split; [done|]. by intros (? & [=] & _).
  - exists false. split_and!; done.
Qed.

(** *** A property of the link map that [linkEntityToTask] and
    [unlinkEntityFromTask] keep holds after any sequence of calls. *)

Section LinkInvariant.

Variable P : gmap string (list TaskEntityLink) -> Prop.

Hypothesis P_empty : P ∅.
Hypothesis P_link : forall now taskId entity s,
  P (entityLinks s) -> P (entityLinks (linkEntityToTask now taskId entity s)).
Hypothesis P_unlink : forall taskId expressId s,
  P (entityLinks s) -> P (entityLinks (unlinkEntityFromTask taskId expressId s)).

Lemma applyRule_inv now taskId r entities s :
  P (entityLinks s) -> P (entityLinks (snd (applyRule now taskId r entities s))).
Proof.
  revert s. induction entities as [|entity rest IH]; intros s Hs; simpl; [done|].
  destruct (doesEntityMatchRule entity r) as [[|]|e]; simpl; auto.
Qed.

Lemma applyRules_inv now taskId rules entities s :
  P (entityLinks s) ->
  P (entityLinks (snd (applyRules now taskId rules entities s))).
Proof.
  revert s. induction rules as [|r rest IH]; intros s Hs; simpl; [done|].
  destruct (isActive r); simpl; [|auto].
  pose proof (applyRule_inv now taskId r entities s Hs) as Hr.
  destruct (applyRule now taskId r entities s) as [[[]|e] s'];
    simpl in *; auto.
Qed.

Lemma entityLinks_stopAnimation s :
  entityLinks (stopAnimation s) = entityLinks s.
Proof. unfold stopAnimation. by destruct (animationFrameId s). Qed.

Lemma step_inv s o : P (entityLinks s) -> P (entityLinks (step s o)).
Proof.
  intros Hs. destruct o; simpl; auto.
  - unfold loadTasks, calculateProjectTimeline. simpl.
    destruct (getFlatTasks _); [done|]. by destruct (foldl _ _ _).
  - by apply applyRules_inv.
  - unfold play. by destruct (isPlaying _).
  - unfold pause. by rewrite entityLinks_stopAnimation.
  - unfold reset. simpl. by rewrite entityLinks_stopAnimation.
  - unfold animate. destruct (isPlaying _); simpl; [|done].
    destruct (dateGt _ _); simpl; [|done].
    unfold pause. by rewrite entityLinks_stopAnimation.
Qed.

Lemma run_inv t0 ops : P (entityLinks (run t0 ops)).
Proof.
  unfold Scheduling.run.
  induction ops as [|o ops IH] using rev_ind; simpl; [done|].
  rewrite foldl_snoc. by apply step_inv.
Qed.

End LinkInvariant.

Lemma run_snoc t0 ops o : run t0 (ops ++ [o]) = step (run t0 ops) o.
Proof. unfold Scheduling.run. by rewrite foldl_snoc. Qed.

Lemma run_linksUnique t0 ops : linksUnique (run t0 ops).
Proof.
  unfold linksUnique.
  apply (run_inv (fun m => forall taskId links,
                    m !! taskId = Some links ->
                    NoDup (entityExpressId <$> links))).
  - intros taskId links. by rewrite lookup_empty.
  - intros now taskId entity s Hs t' links. rewrite link_lookup.
    destruct (decide (t' = taskId)) as [->|]; [|by apply Hs].
    assert (NoDup (entityExpressId <$> getTaskLinks taskId s)) as HL.
    { unfold getTaskLinks.
      destruct (entityLinks s !! taskId) as [L|] eqn:HL; simpl;
        [by eapply Hs|constructor]. }
    destruct (alreadyLinked _ _) eqn:Hal; intros [= <-]; [done|].
    rewrite fmap_app. apply NoDup_app. split_and!; [done| |apply NoDup_singleton].
    intros e He ->%list_elem_of_singleton.
    apply alreadyLinked_elem in He. simpl in He. congruence.
  - intros taskId e s Hs t' links. unfold unlinkEntityFromTask.
    destruct (entityLinks s !! taskId) as [L|] eqn:HL; [|by apply Hs].
    simpl. destruct (decide (t' = taskId)) as [->|].
    + rewrite lookup_insert_eq. intros [= <-].
      eapply sublist_NoDup; [by eapply Hs|].
      apply fmap_sublist. apply sublist_filter.
    + rewrite lookup_insert_ne by done. apply Hs.
Qed.

Lemma applyRule_normal now taskId r entities s :
  fst (applyRule now taskId r entities s) = Normal tt.
Proof.
  revert s. induction entities as [|entity rest IH]; intros s; simpl; [done|].
  destruct (doesEntityMatchRule_normal entity r) as [[|] ->]; apply IH.
Qed.

Lemma applyRule_mono now taskId r entities s t e :
  linked t e s -> linked t e (snd (applyRule now taskId r entities s)).
Proof.
  revert s. induction entities as [|entity rest IH]; intros s Hs; simpl; [done|].
  destruct (doesEntityMatchRule entity r) as [[|]|err]; simpl;
    auto using link_mono.
Qed.

Lemma applyRule_links now taskId r entities entity s :
  entity ∈ entities -> doesEntityMatchRule entity r = Normal true ->
  linked taskId (expressId entity) (snd (applyRule now taskId r entities s)).
Proof.
  intros Hin Hm. revert s.
  induction Hin as [entity rest|entity entity' rest _ IH]; intros s; simpl.
  - rewrite Hm. apply applyRule_mono, link_linked.
  - destruct (doesEntityMatchRule_normal entity' r) as [[|] ->]; by apply IH.
Qed.

Lemma applyRules_mono now taskId rules entities s t e :
  linked t e s -> linked t e (snd (applyRules now taskId rules entities s)).
Proof.
  revert s. induction rules as [|r rest IH]; intros s Hs; simpl; [done|].
  destruct (isActive r); simpl; [|auto].
  pose proof (applyRule_mono now taskId r entities s t e Hs) as Hr.
  destruct (applyRule now taskId r entities s) as [[[]|err] s'];
    simpl in *; auto.
Qed.

Lemma applyRules_links now taskId rules entities entity r s :
  r ∈ rules -> isActive r = true -> entity ∈ entities ->
  doesEntityMatchRule entity r = Normal true ->
  linked taskId (expressId entity)
         (snd (applyRules now taskId rules entities s)).
Proof.
  intros Hr Hactive Hin Hm. revert s.
  induction Hr as [r rest|r r' rest _ IH]; intros s; simpl.
  - rewrite Hactive. simpl.
    pose proof (applyRule_links now taskId r entities entity s Hin Hm) as Hl.
    pose proof (applyRule_normal now taskId r entities s) as Hn.
    destruct (applyRule now taskId r entities s) as [c s']. simpl in *.
    subst c. by apply applyRules_mono.
  - destruct (isActive r'); simpl; [|by apply IH].
    pose proof (applyRule_normal now taskId r' entities s) as Hn.
    destruct (applyRule now taskId r' entities s) as [c s']. simpl in *.
    subst c. by apply IH.
Qed.

Lemma linkCount_one taskId e s :
  linksUnique s -> linked taskId e s -> linkCount taskId e s = 1%nat.
Proof.
  unfold linksUnique, linked, linkCount, getTaskLinks. intros Hu Hl.
  destruct (entityLinks s !! taskId) as [L|] eqn:HL; simpl in *; [|done].
  apply count_unique; [by eapply Hu|by apply alreadyLinked_elem].
Qed.

(** C2.  In the state [s] after any sequence of calls, linking an entity to
    a task twice leaves exactly one link for the pair, and the second call
    changes nothing: the trace of notifications, and the whole state, stay
    as the first call left them.  And [applyRulesToEntities] leaves exactly
    one link for an entity of its list that matches an active rule of the
    task, however many of the rules it matches. *)
Theorem link_idempotent (t0 : Z) (ops : list Op) (now1 now2 : Z)
    (taskId : string) (entity : EntityInfo) :
  let s := run t0 ops in
  let s1 := linkEntityToTask now1 taskId entity s in
  let s2 := linkEntityToTask now2 taskId entity s1 in
  linkCount taskId (expressId entity) s2 = 1%nat
  /\ trace s2 = trace s1
  /\ s2 = s1
  /\ forall now (entities : list EntityInfo) (r : LinkRule),
       entity ∈ entities ->
       r ∈ getTaskRules taskId s -> isActive r = true ->
       doesEntityMatchRule entity r = Normal true ->
       linkCount taskId (expressId entity)
         (snd (applyRulesToEntities now taskId entities s)) = 1%nat.
Proof.
  intros s s1 s2.
  assert (s2 = s1) as Heq by apply link_again.
  split_and!; [|by rewrite Heq|done|].
  - rewrite Heq. apply linkCount_one; [|apply link_linked].
    pose proof (run_linksUnique t0 (ops ++ [OpLink now1 taskId entity])) as Hu.
    by rewrite run_snoc in Hu.
  - intros now entities r Hin Hr Hactive Hm. apply linkCount_one.
    + pose proof (run_linksUnique t0
                    (ops ++ [OpApplyRules now taskId entities])) as Hu.
      by rewrite run_snoc in Hu.
    + by eapply applyRules_links.
Qed.

(** C9.  After any sequence of calls every stored link is a manual one, the
    links that [applyRulesToEntities] created included; no link of type
    [rule] is ever stored. *)
Theorem stored_links_all_manual (t0 : Z) (ops : list Op) :
  allManual (run t0 ops)
  /\ forall taskId l,
       l ∈ getTaskLinks taskId (run t0 ops) -> linkType l <> rule.
Proof.
  assert (allManual (run t0 ops)) as Hall.
  { unfold allManual. apply run_inv.
    - apply map_Forall_empty.
    - intros now taskId entity s Hs t' links. rewrite link_lookup.
      destruct (decide (t' = taskId)) as [->|]; [|by apply Hs].
      assert (Forall (fun l => linkType l = manual) (getTaskLinks taskId s))
        as HL.
      { unfold getTaskLinks.
        destruct (entityLinks s !! taskId) as [L|] eqn:HL; simpl;
          [by eapply Hs|constructor]. }
      destruct (alreadyLinked _ _); intros [= <-]; [done|].
      apply Forall_app. split; [done|]. by constructor.
    - intros taskId e s Hs t' links. unfold unlinkEntityFromTask.
      destruct (entityLinks s !! taskId) as [L|] eqn:HL; [|by apply Hs].
      simpl. destruct (decide (t' = taskId)) as [->|].
      + rewrite lookup_insert_eq. intros [= <-].
        specialize (Hs taskId L HL). simpl in Hs.
        rewrite Forall_forall in Hs |- *.
        intros l [_ Hin]%list_elem_of_filter. by apply Hs.
      + rewrite lookup_insert_ne by done. apply Hs. }
  split; [done|]. intros taskId l. unfold getTaskLinks.
  destruct (entityLinks (run t0 ops) !! taskId) as [L|] eqn:HL; simpl.
  - intros Hl. specialize (Hall taskId L HL). simpl in Hall.
    rewrite Forall_forall in Hall. by rewrite (Hall l Hl).
  - by intros ?%elem_of_nil.
Qed.

End WithHost.

(** An instance of C2 and of the OR of rules: a wall that matches two
    active type filters of task 1 is linked once. *)
Lemma link_idempotent_witness :
  let host (p flags : string) : Completion unit := Throw "SyntaxError" in
  let config := mkConfig None None None (Some ["IfcWall"; "IfcSlab"]) in
  let r1 := mkRule "r1" "1" type_filter config true in
  let r2 := mkRule "r2" "1" type_filter config true in
  let wall := mkEntity "g1" 7 "IfcWall" None in
  let door := mkEntity "g2" 8 "IfcDoor" None in
  let s := run unit host (fun _ _ => false) 0 [OpAddRule r1; OpAddRule r2] in
  linkCount "1" 7
    (snd (applyRulesToEntities unit host (fun _ _ => false) 5 "1"
            [wall; door] s)) = 1%nat
  /\ linkCount "1" 8
    (snd (applyRulesToEntities unit host (fun _ _ => false) 5 "1"
            [wall; door] s)) = 0%nat.
Proof.
  intros host config r1 r2 wall door s. split; [|reflexivity].
  apply (link_idempotent unit host (fun _ _ => false) 0
           [OpAddRule r1; OpAddRule r2] 1 2 "1" wall) with (r := r2).
  - left.
  - right. left.
  - reflexivity.
  - reflexivity.
Defined.

(** [unlinkEntityFromTask] on a task with a link list: the links to the
    entity are gone, the others stay, and the result is notified. *)
Lemma unlink_lookup taskId expressId s links :
  entityLinks s !! taskId = Some links ->
  let filtered :=
    filter (fun l => entityExpressId l <> expressId) links in
  unlinkEntityFromTask taskId expressId s
  = emit (LinksUpdated taskId filtered)
      (setEntityLinks (<[taskId := filtered]> (entityLinks s)) s).
Proof. unfold unlinkEntityFromTask. by intros ->. Qed.

(** C7, as amended.  When the task has a link list, [unlinkEntityFromTask]
    removes the links to the entity from it, keeps the others, and notifies
    with the resulting list, which is the old list when no link matched.
    When the task has no link list, nothing changes and nothing is
    notified. *)
Theorem unlink_notifies_known_task (taskId : string) (expressId : Z)
    (s : Scheduling4DModule) :
  let s' := unlinkEntityFromTask taskId expressId s in
  match entityLinks s !! taskId with
  | Some links =>
      exists filtered,
        entityLinks s' !! taskId = Some filtered
        /\ (forall l, l ∈ filtered
                      <-> l ∈ links /\ entityExpressId l <> expressId)
        /\ linkCount taskId expressId s' = 0%nat
        /\ trace s' = trace s ++ [LinksUpdated taskId filtered]
        /\ (linkCount taskId expressId s = 0%nat -> filtered = links)
  | None => s' = s /\ trace s' = trace s
  end.
Proof.
  intros s'. subst s'.
  destruct (entityLinks s !! taskId) as [links|] eqn:Hl.
  - rewrite (unlink_lookup _ _ _ _ Hl). cbv zeta.
    exists (filter (fun l => entityExpressId l <> expressId) links).
    split_and!.
    + simpl. by rewrite lookup_insert_eq.
    + intros l. rewrite list_elem_of_filter. tauto.
    + unfold linkCount, getTaskLinks. simpl. rewrite lookup_insert_eq. simpl.
      apply count_absent. rewrite list_elem_of_fmap.
      intros (l & Heq & [Hne _]%list_elem_of_filter). done.
    + done.
    + unfold linkCount. rewrite (getTaskLinks_lookup _ _ _ Hl).
      intros Hc. clear Hl. induction links as [|l links IH]; [done|].
      rewrite filter_cons in Hc |- *.
      destruct (decide (entityExpressId l = expressId)) as [He|He];
        [done|].
      rewrite decide_True by done. f_equal. by apply IH.
  - unfold unlinkEntityFromTask. by rewrite Hl.
Qed.

(** C7 as stated fails: for a task without a link list nothing is
    notified. *)
Lemma unlink_unknown_task_silent :
  trace (unlinkEntityFromTask "1" 7 (create 0)) = []
  /\ ~ exists links,
         trace (unlinkEntityFromTask "1" 7 (create 0))
         = trace (create 0) ++ [LinksUpdated "1" links].
Proof. split; [done|]. by intros [links ?]. Qed.

(** An instance of C6: a pattern that does not compile matches nothing. *)
Lemma doesEntityMatchRule_witness :
  let host (p flags : string) : Completion unit :=
    if String.eqb p "(" then Throw "SyntaxError" else Normal tt in
  let r := mkRule "r1" "1" name_pattern
             (mkConfig None None (Some "(") None) true in
  let wall := mkEntity "g1" 7 "IfcWall" (Some "Wall-01") in
  doesEntityMatchRule unit host (fun _ _ => true) wall r = Normal false.
Proof.
  intros host r wall.
  destruct (doesEntityMatchRule_total unit host (fun _ _ => true) wall r)
    as (b & Hb & Hname & _).
  rewrite Hb. f_equal. apply Hname; [reflexivity|].
  right. right. by exists "(", "SyntaxError".
Defined.

End LinkFacts.

(** ** Forests whose nodes are numbered in pre-order *)

Module ForestOrder.
Import Forest ForestFacts.

Lemma sorted_seq (o k : nat) : StronglySorted lt (seq o k).
Proof.
  revert o. induction k as [|k IH]; intros o; simpl; constructor; [apply IH|].
  apply Forall_forall. intros x Hx%elem_of_seq. lia.
Qed.

Lemma sorted_filter_seq (P : nat -> Prop) `{!forall x, Decision (P x)}
    (o k : nat) :
  StronglySorted lt (filter P (seq o k)).
Proof.
  revert o. induction k as [|k IH]; intros o; simpl; [constructor|].
  rewrite filter_cons. case_decide; [|apply IH].
  constructor; [apply IH|]. apply Forall_forall.
  intros x [_ Hx%elem_of_seq]%list_elem_of_filter. lia.
Qed.

Section Order.

Variable n : nat.
Variable parent : nat -> option nat.
Variable m : nat -> nat.
Variable M : nat.

Hypothesis parent_lt : forall i p, parent i = Some p -> (p < n)%nat.
Hypothesis parent_m : forall i p, parent i = Some p -> (m p < m i)%nat.
Hypothesis m_le : forall i, (i < n)%nat -> (m i <= M)%nat.

(** A parent comes before its child, and every node between the two has
    its own parent at or after that parent. *)
Hypothesis parent_before : forall i p, parent i = Some p -> (p < i)%nat.
Hypothesis between : forall i p j,
  parent i = Some p -> (p < j < i)%nat ->
  exists q, parent j = Some q /\ (p <= q)%nat.

Local Abbreviation kids := (kids n parent).
Local Abbreviation roots := (roots n parent).
Local Abbreviation up := (up parent).
Local Abbreviation walk := (walk n parent).

(** The nodes between a node and its parent descend from that parent. *)
Lemma between_descends i p j :
  parent i = Some p -> (p < j < i)%nat -> exists k, up k j = Some p.
Proof.
  intros Hi. induction j as [j IH] using lt_wf_ind. intros Hj.
  destruct (between i p j Hi Hj) as (q & Hq & Hpq).
  destruct (decide (q = p)) as [->|Hne].
  - exists 1%nat. simpl. by rewrite Hq.
  - pose proof (parent_before j q Hq).
    destruct (IH q) as [k Hk]; [lia..|].
    exists (S k). simpl. by rewrite Hq.
Qed.

Lemma up_le k x a : up k x = Some a -> (a <= x)%nat.
Proof.
  revert x. induction k as [|k IH]; intros x; simpl.
  - intros [= ->]. lia.
  - destruct (parent x) as [q|] eqn:Hq; simpl; [|done].
    intros Hk%IH. apply parent_before in Hq. lia.
Qed.

Lemma no_cycle k q : up (S k) q <> Some q.
Proof.
  intros Hk%(up_measure parent m parent_m). lia.
Qed.

(** A descendant of a node comes before the later siblings of the node. *)
Lemma below_sibling k x a b :
  parent a = parent b -> (a < b)%nat -> up k x = Some a -> (x < b)%nat.
Proof.
  intros Hab Hlt. revert x. induction k as [|k IH]; intros x; simpl.
  - intros [= ->]. done.
  - destruct (parent x) as [q|] eqn:Hq; simpl; [|done].
    intros Hk. pose proof (IH q Hk) as Hqb.
    destruct (decide (x < b)%nat) as [|Hxb]; [done|]. exfalso.
    assert (exists k', up (S k') b = Some q) as [k' Hk'].
    { destruct (decide (x = b)) as [->|Hne].
      - exists 0%nat. simpl. by rewrite Hq.
      - destruct (between_descends x q b Hq) as [[|k'] Hk']; [lia| |].
        + simpl in Hk'. injection Hk' as ->. lia.
        + by exists k'. }
    simpl in Hk'. rewrite <- Hab in Hk'.
    destruct (parent a) as [r|] eqn:Hr; simpl in Hk'; [|done].
    apply (no_cycle (k' + k) r).
    replace (S (k' + k)) with (k' + (k + 1))%nat by lia.
    rewrite up_add, Hk'. simpl. rewrite up_add, Hk. simpl. by rewrite Hr.
Qed.

Lemma sorted_flat_map f (l : list nat) :
  StronglySorted lt l ->
  (forall a b, a ∈ l -> b ∈ l -> parent a = parent b) ->
  (forall a, a ∈ l -> StronglySorted lt (walk f a)) ->
  StronglySorted lt (flat_map (walk f) l).
Proof.
  induction 1 as [|a l Hl IH Ha]; intros Hsib Hw; simpl; [constructor|].
  apply StronglySorted_app_2.
  - intros x y Hx Hy.
    apply list_elem_of_In, in_flat_map in Hy as (b & Hb & Hy).
    apply list_elem_of_In in Hb, Hy.
    apply walk_up in Hx as [k Hk]. apply walk_up in Hy as [k' Hk'].
    rewrite Forall_forall in Ha. specialize (Ha b Hb).
    pose proof (below_sibling k x a b) as Hxb.
    pose proof (up_le k' y b Hk').
    assert (x < b)%nat; [|lia].
    apply Hxb; [|done..]. apply Hsib; [left|by right].
  - apply Hw. left.
  - apply IH.
    + intros b c Hb Hc. apply Hsib; by right.
    + intros b Hb. apply Hw. by right.
Qed.

Lemma sorted_kids p : StronglySorted lt (kids p).
Proof. apply sorted_filter_seq. Qed.

Lemma sorted_roots : StronglySorted lt roots.
Proof. apply sorted_filter_seq. Qed.

Lemma sorted_walk f i : StronglySorted lt (walk f i).
Proof.
  revert i. induction f as [|f IH]; intros i; simpl; constructor.
  - apply sorted_flat_map; [apply sorted_kids| |auto].
    intros a b [_ Ha]%elem_of_kids [_ Hb]%elem_of_kids. congruence.
  - apply Forall_forall. intros x Hx.
    apply list_elem_of_In, in_flat_map in Hx as (c & Hc & Hx).
    apply list_elem_of_In, elem_of_kids in Hc as [_ Hc].
    apply list_elem_of_In, walk_up in Hx as [k Hk].
    apply up_le in Hk. apply parent_before in Hc. lia.
Qed.

(** The traversal of a forest numbered in pre-order visits the nodes in
    the order of their numbers. *)
Lemma walk_roots_seq f :
  (M < f)%nat -> flat_map (walk f) roots = seq 0 n.
Proof.
  intros Hf.
  assert (AntiSymm eq lt) as Hanti by (intros x y ??; lia).
  apply (StronglySorted_unique lt).
  - apply sorted_flat_map; [apply sorted_roots| |auto using sorted_walk].
    intros a b [_ Ha]%elem_of_roots [_ Hb]%elem_of_roots. congruence.
  - apply sorted_seq.
  - by apply (walk_roots_perm n parent m M).
Qed.

End Order.

End ForestOrder.

(** ** More on the parser *)

Module ParserMoreFacts.
Import Js Task Parser Forest ForestFacts ParserFacts ParserMore.

Lemma pretty_N_go_nonempty (x : N) (s : string) :
  s <> EmptyString -> pretty_N_go x s <> EmptyString.
Proof.
  revert s. induction (N.lt_wf_0 x) as [x _ IH]; intros s Hs.
  destruct (decide (x = 0)%N) as [->|Hx]; [by rewrite pretty_N_go_0|].
  rewrite pretty_N_go_step by lia. apply IH; [|done].
  apply N.div_lt; lia.
Qed.

Lemma pretty_Z_nonempty (z : Z) : pretty z <> EmptyString.
Proof.
  destruct z as [|p|p]; [done| |done].
  unfold pretty, pretty_Z, pretty, pretty_positive, pretty, pretty_N.
  rewrite decide_False by done.
  rewrite pretty_N_go_step by lia. by apply pretty_N_go_nonempty.
Qed.

Lemma positiveToString_nonempty (m e : Z) :
  positiveToString m e <> EmptyString.
Proof.
  unfold positiveToString.
  destruct (shortest _ _ _ _ _) as [s q]. destruct (stripZeros _ _ _) as [s' q'].
  destruct (pretty s') as [|first rest]; [done|].
  repeat case_match; done.
Qed.

Lemma numberToString_nonempty (x : float) : numberToString x <> EmptyString.
Proof.
  unfold numberToString.
  destruct (Prim2SF x) as [[|]|[|]| |[|] m e]; try done.
  apply positiveToString_nonempty.
Qed.

(** [String(v)] is empty only for the empty string. *)
Lemma toString_nonEmpty (v : JsVal) :
  nonEmpty (toString v) = negb (match v with
                                | JsString s => String.eqb s EmptyString
                                | _ => false
                                end).
Proof.
  unfold nonEmpty. destruct v as [|[|]|x|s]; simpl; [done..| |done].
  apply negb_true_iff, String.eqb_neq, numberToString_nonempty.
Qed.

(** X1.  [parsePredecessors] returns only non-empty strings, and it drops a
    link only when its [PredecessorUID] is the empty string: a link without
    a [PredecessorUID] yields the string [undefined] and one with the
    number 0 yields [0]. *)
Theorem parsePredecessors_keeps (predecessorData : OneOrMany PredecessorLink) :
  Forall (fun s => s <> EmptyString) (parsePredecessors predecessorData)
  /\ (Forall (fun pred => PredecessorUID pred <> JsString EmptyString)
             (asArray predecessorData) ->
      parsePredecessors predecessorData
      = (fun pred => toString (PredecessorUID pred))
          <$> asArray predecessorData).
Proof.
  assert (forall links : list PredecessorLink,
    Forall (fun s => s <> EmptyString)
      (List.filter nonEmpty
         (List.map (fun pred => toString (PredecessorUID pred)) links))
    /\ (Forall (fun pred => PredecessorUID pred <> JsString EmptyString)
               links ->
        List.filter nonEmpty
          (List.map (fun pred => toString (PredecessorUID pred)) links)
        = (fun pred => toString (PredecessorUID pred)) <$> links)) as Hl.
  { induction links as [|pred links [IH1 IH2]]; simpl; [by split|].
    rewrite toString_nonEmpty. split.
    - destruct (PredecessorUID pred) as [|[|]|x|s] eqn:Hu; simpl.
      + by constructor.
      + by constructor.
      + by constructor.
      + constructor; [apply numberToString_nonempty|done].
      + destruct (String.eqb s EmptyString) eqn:Hs; simpl; [done|].
        constructor; [by apply String.eqb_neq|done].
    - intros [Hp Hrest]%Forall_cons. rewrite (IH2 Hrest).
      destruct (PredecessorUID pred) as [|b|x|s]; simpl; try done.
      destruct (String.eqb s EmptyString) eqn:Hs; simpl; [|done].
      apply String.eqb_eq in Hs. by subst s. }
  destruct predecessorData as [|pred|links]; simpl.
  - by split.
  - apply (Hl [pred]).
  - apply Hl.
Qed.

Lemma parseResources_uids (uids : list JsVal) :
  parseResources (Some (mkAssignments (Many (mkResourceAssignment <$> uids))))
  = List.map toString (List.filter truthy uids).
Proof.
  simpl. do 2 f_equal. induction uids as [|v uids IH]; simpl; by f_equal.
Qed.

Lemma parsePredecessors_uids (uids : list JsVal) :
  parsePredecessors (Many (mkPredecessorLink <$> uids))
  = List.filter nonEmpty (List.map toString uids).
Proof.
  simpl. f_equal. induction uids as [|v uids IH]; simpl; by f_equal.
Qed.

Lemma truthy_nonEmpty (v : JsVal) :
  truthy v = true -> nonEmpty (toString v) = true.
Proof.
  rewrite toString_nonEmpty. by destruct v.
Qed.

Lemma kept_sublist (uids : list JsVal) :
  List.map toString (List.filter truthy uids)
  `sublist_of` List.filter nonEmpty (List.map toString uids).
Proof.
  induction uids as [|v uids IH]; simpl; [done|].
  destruct (truthy v) eqn:Hv; simpl.
  - rewrite (truthy_nonEmpty v Hv). by constructor.
  - destruct (nonEmpty (toString v)); [by constructor|done].
Qed.

(** X2.  On the same raw identifiers [parseResources] returns a sublist of
    what [parsePredecessors] returns: it also drops the missing identifiers
    and the other falsy values that are not the empty string (the number 0,
    [NaN], [false]), which [parsePredecessors] keeps as [undefined], [0]
    and so on; without those the two results are equal, with one of them
    they differ. *)
Theorem parseResources_drops_more (uids : list JsVal) :
  let resources :=
    parseResources
      (Some (mkAssignments (Many (mkResourceAssignment <$> uids)))) in
  let predecessors :=
    parsePredecessors (Many (mkPredecessorLink <$> uids)) in
  resources `sublist_of` predecessors
  /\ (Forall (fun v => truthy v = true \/ v = JsString EmptyString) uids ->
      resources = predecessors)
  /\ (Exists (fun v => truthy v = false /\ v <> JsString EmptyString) uids ->
      (length resources < length predecessors)%nat).
Proof.
  cbv zeta. rewrite parseResources_uids, parsePredecessors_uids.
  split_and!.
  - apply kept_sublist.
  - induction 1 as [|v uids Hv _ IH]; simpl; [done|].
    destruct Hv as [Hv | ->]; [|done].
    rewrite Hv, (truthy_nonEmpty v Hv). simpl. by rewrite IH.
  - induction 1 as [v uids [Hv Hs]|v uids _ IH]; simpl.
    + rewrite Hv, toString_nonEmpty.
      assert (match v with
              | JsString s => String.eqb s EmptyString
              | _ => false
              end = false) as ->.
      { destruct v as [|b|x|s]; try done.
        apply String.eqb_neq. congruence. }
      simpl. apply Nat.lt_succ_r, sublist_length, kept_sublist.
    + destruct (truthy v) eqn:Hv; simpl.
      * rewrite (truthy_nonEmpty v Hv). simpl. lia.
      * destruct (nonEmpty (toString v)); simpl; lia.
Qed.

Lemma filter_all {A} (P : A -> Prop) `{!forall x, Decision (P x)}
    (l : list A) :
  (forall x, x ∈ l -> P x) -> filter P l = l.
Proof.
  induction l as [|x l IH]; intros HP; [done|].
  rewrite filter_cons_True by (apply HP; left).
  f_equal. apply IH. intros y Hy. apply HP. by right.
Qed.

Lemma filter_none {A} (P : A -> Prop) `{!forall x, Decision (P x)}
    (l : list A) :
  (forall x, x ∈ l -> ~ P x) -> filter P l = [].
Proof.
  induction l as [|x l IH]; intros HP; [done|].
  rewrite filter_cons_False by (apply HP; left).
  apply IH. intros y Hy. apply HP. by right.
Qed.

Lemma findIndex_None {A} (p : A -> bool) (l : list A) :
  (forall x, x ∈ l -> p x = false) -> findIndex p l = None.
Proof.
  induction l as [|x l IH]; intros Hp; simpl; [done|].
  rewrite (Hp x) by left. rewrite IH; [done|].
  intros y Hy. apply Hp. by right.
Qed.

Section Hierarchy.

Variable tasks : list ScheduleTask.

Local Abbreviation n := (length tasks).
Local Abbreviation parentOf := (parentOf tasks).
Local Abbreviation built := (attached tasks (length tasks)).

(** The traversal of a task read out of the store, seen through a
    projection [proj] that does not look at [children]. *)
Lemma snapshot_traverse_proj {B} (proj : ScheduleTask -> B) (d : B)
    fuel i t :
  (forall task cs, proj (withChildren task cs) = proj task) ->
  snapshot fuel tasks built i = Some t ->
  proj <$> traverse t
  = (fun j => from_option proj d (tasks !! j)) <$> walk n parentOf fuel i.
Proof.
  intros Hproj. revert i t.
  induction fuel as [|fuel IH]; intros i t; [done|]. cbn [snapshot].
  destruct (tasks !! i) as [task|] eqn:Ht; [|done].
  cbn [mbind option_bind].
  rewrite childrenOf_built by (by eapply lookup_lt_Some). simpl.
  destruct (mapM _ (kids n parentOf i)) as [ks|] eqn:Hks; simpl; [|done].
  intros [= <-].
  change (traverse (withChildren task ks))
    with (withChildren task ks :: flat_map traverse ks).
  rewrite fmap_cons, Hproj. cbn [walk fmap list_fmap].
  f_equal; [by rewrite Ht|].
  apply mapM_Some_1 in Hks. clear Ht.
  induction Hks as [|c k cs ks Hc _ IHks]; simpl; [done|].
  rewrite !fmap_app. f_equal; [by apply IH|apply IHks].
Qed.

Lemma snapshot_forest_proj {B} (proj : ScheduleTask -> B) (d : B)
    fuel rs ts :
  (forall task cs, proj (withChildren task cs) = proj task) ->
  Forall2 (fun r t => snapshot fuel tasks built r = Some t) rs ts ->
  proj <$> flat_map traverse ts
  = (fun j => from_option proj d (tasks !! j))
      <$> flat_map (walk n parentOf fuel) rs.
Proof.
  intros Hproj.
  induction 1 as [|r t rs ts Hr _ IHts]; cbn [flat_map]; [done|].
  rewrite !fmap_app. f_equal; [by eapply snapshot_traverse_proj|done].
Qed.

Lemma from_option_seq {B} (proj : ScheduleTask -> B) (d : B) :
  (fun j => from_option proj d (tasks !! j)) <$> seq 0 n = proj <$> tasks.
Proof.
  apply list_eq. intros i. rewrite !list_lookup_fmap.
  destruct (tasks !! i) as [task|] eqn:Ht; simpl.
  - rewrite lookup_seq_lt by (by eapply lookup_lt_Some). simpl.
    by rewrite Ht.
  - by rewrite lookup_seq_ge by (by apply lookup_ge_None).
Qed.

(** Through such a projection, the flattened tree is a permutation of the
    task list of the first pass. *)
Lemma hierarchy_flatten_proj {B} (proj : ScheduleTask -> B) trees :
  (forall task cs, proj (withChildren task cs) = proj task) ->
  mapM (snapshot (depthBound tasks) tasks built) (rootTasks built)
    = Some trees ->
  proj <$> flattenTasks trees ≡ₚ proj <$> tasks.
Proof.
  intros Hproj Htrees. destruct tasks as [|task0 rest] eqn:Htasks.
  { simpl in Htrees. by injection Htrees as <-. }
  rewrite <- Htasks in *. clear Htasks rest.
  apply mapM_Some_1 in Htrees. rewrite rootTasks_built in Htrees.
  unfold flattenTasks.
  rewrite (snapshot_forest_proj proj (proj task0) _ _ _ Hproj Htrees).
  rewrite <- (from_option_seq proj (proj task0)).
  apply fmap_Permutation.
  apply (walk_roots_perm n parentOf (depthOf tasks) (pred (depthBound tasks))).
  - apply parentOf_lt.
  - apply parentOf_depth.
  - intros i Hi. pose proof (depthOf_le tasks i Hi). lia.
  - unfold depthBound. lia.
Qed.

Lemma snapshot_lookup fuel (h : Hierarchy) i t :
  snapshot fuel tasks h i = Some t ->
  exists task cs, tasks !! i = Some task /\ t = withChildren task cs.
Proof.
  destruct fuel as [|fuel]; simpl; [done|].
  destruct (tasks !! i) as [task|]; simpl; [|done].
  destruct (childrenOf h !! i) as [cs|]; simpl; [|done].
  destruct (mapM _ cs) as [ks|]; simpl; [|done].
  intros [= <-]. by exists task, ks.
Qed.

Lemma parentOf_nests c i task_c task_i :
  parentOf c = Some i -> tasks !! c = Some task_c ->
  tasks !! i = Some task_i -> nests task_c task_i = true.
Proof.
  unfold Parser.parentOf. intros Hp Hc Hi.
  rewrite Hc in Hp. simpl in Hp.
  destruct (outlineLevel task_c <=? 1)%float; [done|].
  apply findIndex_Some in Hp as (x & Hx & Hpar). congruence.
Qed.

(** A task read out of the store is well nested. *)
Lemma snapshot_wellNested fuel i t :
  snapshot fuel tasks built i = Some t -> wellNested t = true.
Proof.
  revert i t. induction fuel as [|fuel IH]; intros i t; [done|].
  cbn [snapshot].
  destruct (tasks !! i) as [task|] eqn:Ht; [|done].
  cbn [mbind option_bind].
  rewrite childrenOf_built by (by eapply lookup_lt_Some). simpl.
  destruct (mapM _ (kids n parentOf i)) as [ks|] eqn:Hks; simpl; [|done].
  intros [= <-]. apply mapM_Some_1 in Hks.
  change (wellNested (withChildren task ks))
    with (forallb (fun child => nests child (withChildren task ks)
                                && wellNested child) ks).
  apply forallb_forall. intros child Hchild%list_elem_of_In.
  apply list_elem_of_lookup in Hchild as [k Hk].
  destruct (Forall2_lookup_r _ _ _ _ _ Hks Hk) as (c & Hc & Hsnap).
  apply list_elem_of_lookup_2, elem_of_kids in Hc as [_ Hpar].
  rewrite (IH _ _ Hsnap), andb_true_r.
  destruct (snapshot_lookup _ _ _ _ Hsnap) as (task_c & cs & Htc & ->).
  change (nests (withChildren task_c cs) (withChildren task ks))
    with (nests task_c task).
  by eapply parentOf_nests.
Qed.

(** Where no task has a parent, the store reads out as the task list. *)
Lemma snapshot_flat :
  (forall i, parentOf i = None) ->
  Forall (fun task => children task = []) tasks ->
  mapM (snapshot (depthBound tasks) tasks built) (rootTasks built)
  = Some tasks.
Proof.
  intros Hpar Hleaf.
  rewrite rootTasks_built. unfold roots.
  rewrite filter_all by done.
  apply mapM_Some_2, Forall2_same_length_lookup_2; [by rewrite length_seq|].
  intros i j task [-> Hi]%lookup_seq Ht. unfold depthBound. cbn [snapshot].
  rewrite Nat.add_0_l, Ht. cbn [mbind option_bind].
  rewrite childrenOf_built by done. simpl.
  unfold kids. rewrite filter_none by (intros c _; by rewrite Hpar).
  simpl. f_equal. rewrite Forall_forall in Hleaf.
  specialize (Hleaf task (list_elem_of_lookup_2 _ _ _ Ht)).
  destruct task. simpl in *. by subst.
Qed.

(** The roots come in the order of the task list. *)
Lemma roots_sublist trees :
  mapM (snapshot (depthBound tasks) tasks built) (rootTasks built)
    = Some trees ->
  stripChildren <$> trees `sublist_of` stripChildren <$> tasks.
Proof.
  intros Htrees. destruct tasks as [|task0 rest] eqn:Htasks.
  { simpl in Htrees. by injection Htrees as <-. }
  rewrite <- Htasks in *. clear Htasks rest.
  apply mapM_Some_1 in Htrees. rewrite rootTasks_built in Htrees.
  rewrite <- (from_option_seq stripChildren (stripChildren task0)).
  assert (stripChildren <$> trees
          = (fun j => from_option stripChildren (stripChildren task0)
                        (tasks !! j)) <$> roots n parentOf) as ->.
  { induction Htrees as [|r t rs ts Hr _ IHts]; simpl; [done|].
    f_equal; [|done].
    destruct (snapshot_lookup _ _ _ _ Hr) as (task & cs & -> & ->). done. }
  apply fmap_sublist. unfold roots. apply sublist_filter.
Qed.

(** The search for a parent of a root ends normally, without one, when it
    throws on no task. *)
Lemma roots_no_parent trees :
  Forall (fun task => exists r, findParentTask task tasks = Normal r) tasks ->
  mapM (snapshot (depthBound tasks) tasks built) (rootTasks built)
    = Some trees ->
  Forall (fun r => findParentTask r tasks = Normal None) trees.
Proof.
  intros Htotal Htrees. apply mapM_Some_1 in Htrees.
  rewrite rootTasks_built in Htrees.
  apply Forall_forall. intros t Ht.
  apply list_elem_of_lookup in Ht as [k Hk].
  destruct (Forall2_lookup_r _ _ _ _ _ Htrees Hk) as (r & Hr & Hsnap).
  apply list_elem_of_lookup_2, elem_of_roots in Hr as [_ Hpar].
  destruct (snapshot_lookup _ _ _ _ Hsnap) as (task & cs & Htask & ->).
  rewrite Forall_forall in Htotal.
  destruct (Htotal task (list_elem_of_lookup_2 _ _ _ Htask)) as [p Hp].
  change (findParentTask (withChildren task cs) tasks)
    with (findParentTask task tasks).
  rewrite Hp. f_equal. apply findParentTask_normal in Hp as ->.
  unfold Parser.parentOf in Hpar. by rewrite Htask in Hpar.
Qed.

End Hierarchy.

Section Parse.

Variable dateParse : string -> option Z.
Variable now : Z.
Variable parseFloat : string -> float.
Variable regExpMatch : string -> string -> option string.

Local Abbreviation taskLiteral := (taskLiteral dateParse now).
Local Abbreviation parseTasks :=
  (parseTasks dateParse now parseFloat regExpMatch).

(** The tasks of the first pass: the object literals of the records with a
    truthy [UID]. *)
Local Abbreviation firstTasks tasksData :=
  (taskLiteral <$> withIdentifier (toArray tasksData)).

Lemma firstTasks_leaves (tasksData : TasksData) :
  Forall (fun task => children task = []) (firstTasks tasksData).
Proof. apply Forall_fmap, Forall_forall. done. Qed.

Lemma stripChildren_leaves (l : list ScheduleTask) :
  Forall (fun task => children task = []) l -> stripChildren <$> l = l.
Proof.
  induction 1 as [|task l Hc _ IH]; simpl; [done|].
  f_equal; [|done]. destruct task. simpl in Hc. by subst.
Qed.

Lemma outlineNumber_text (taskData : TaskData) :
  isStringOrFalsy (OutlineNumber taskData) = true ->
  isStringOrFalsy (outlineNumber (taskLiteral taskData)) = true.
Proof.
  simpl. unfold or, isStringOrFalsy.
  destruct (OutlineNumber taskData) as [|b|x|s]; [done| | |].
  - by intros ->%negb_true_iff.
  - by intros ->%negb_true_iff.
  - by destruct (truthy (JsString s)).
Qed.

Lemma firstTasks_findParentTask (tasksData : TasksData) :
  Forall (fun taskData => readAsText taskData = true)
         (withIdentifier (toArray tasksData)) ->
  Forall (fun task =>
            exists r, findParentTask task (firstTasks tasksData) = Normal r)
         (firstTasks tasksData).
Proof.
  intros Htext. apply Forall_fmap. eapply Forall_impl; [exact Htext|].
  intros taskData Ht. unfold readAsText in Ht.
  apply andb_true_iff in Ht as [_ Hn]. apply findParentTask_total. right.
  by apply outlineNumber_text.
Qed.

(** The parse of records that are read as text, in terms of the forest of
    the first-pass tasks. *)
Lemma parseTasks_text (tasksData : TasksData) :
  Forall (fun taskData => readAsText taskData = true)
         (withIdentifier (toArray tasksData)) ->
  exists trees,
    parseTasks tasksData = Normal (Some trees)
    /\ mapM (snapshot (depthBound (firstTasks tasksData))
               (firstTasks tasksData)
               (attached (firstTasks tasksData)
                  (length (firstTasks tasksData))))
            (rootTasks (attached (firstTasks tasksData)
                          (length (firstTasks tasksData))))
       = Some trees.
Proof.
  intros [r Hr]%(parseTasks_total dateParse now parseFloat regExpMatch).
  pose proof (parseTasks_unfold _ _ _ _ _ _ Hr) as Hu. cbv zeta in Hu.
  destruct (hierarchy_flatten (firstTasks tasksData)) as (trees & Htrees & _).
  exists trees. split; [|done]. rewrite Hr, Hu. by f_equal.
Qed.

(** X3.  When the kept records hold strings (or nothing) for [Duration]
    and [OutlineNumber], [parseTasks] moves the tasks of the first pass
    into the tree and changes nothing else: the flattened tree, without the
    [children] arrays, is a permutation of the object literals built from
    the records with a truthy [UID], so every task keeps its id, name,
    dates, outline level and outline number. *)
Theorem parseTasks_keeps_task_data (tasksData : TasksData) :
  Forall (fun taskData => readAsText taskData = true)
         (withIdentifier (toArray tasksData)) ->
  exists trees,
    parseTasks tasksData = Normal (Some trees)
    /\ stripChildren <$> flattenTasks trees
       ≡ₚ taskLiteral <$> withIdentifier (toArray tasksData).
Proof.
  intros (trees & Hparse & Htrees)%parseTasks_text.
  exists trees. split; [done|].
  rewrite <- (stripChildren_leaves (firstTasks tasksData))
    by apply firstTasks_leaves.
  by apply hierarchy_flatten_proj.
Qed.

(** X4.  When the kept records hold strings (or nothing) for [Duration]
    and [OutlineNumber], every child in the tree that [parseTasks] returns
    passes the test of [findParentTask] against its parent (its outline
    level is the parent's plus one and its outline number starts with the
    parent's followed by a dot), [findParentTask] finds no parent for a
    root among the tasks, and the roots come in document order. *)
Theorem parseTasks_nesting (tasksData : TasksData) :
  Forall (fun taskData => readAsText taskData = true)
         (withIdentifier (toArray tasksData)) ->
  exists trees,
    parseTasks tasksData = Normal (Some trees)
    /\ Forall (fun r => wellNested r = true) trees
    /\ Forall (fun r =>
                 findParentTask r
                   (taskLiteral <$> withIdentifier (toArray tasksData))
                 = Normal None) trees
    /\ stripChildren <$> trees
       `sublist_of` taskLiteral <$> withIdentifier (toArray tasksData).
Proof.
  intros Htext.
  destruct (parseTasks_text tasksData Htext) as (trees & Hparse & Htrees).
  exists trees. split_and!; [done| | |].
  - apply mapM_Some_1 in Htrees. apply Forall_forall. intros t Ht.
    apply list_elem_of_lookup in Ht as [k Hk].
    destruct (Forall2_lookup_r _ _ _ _ _ Htrees Hk) as (r & _ & Hsnap).
    by eapply snapshot_wellNested.
  - apply roots_no_parent; [|done]. by apply firstTasks_findParentTask.
  - rewrite <- (stripChildren_leaves (firstTasks tasksData))
      by apply firstTasks_leaves.
    by apply roots_sublist.
Qed.

(** X5.  A document without hierarchy parses to its tasks in document
    order: when every kept record has a [Duration] that is a string (or
    none) and an outline level of at most 1 (or none) or no outline number,
    [parseTasks] returns the tasks of the first pass, none of them with
    children. *)
Theorem parseTasks_flat (tasksData : TasksData) :
  Forall (fun taskData =>
            isStringOrFalsy (Duration taskData) = true
            /\ ((parseOutlineLevel (OutlineLevel taskData) <=? 1)%float = true
                \/ truthy (OutlineNumber taskData) = false))
         (withIdentifier (toArray tasksData)) ->
  parseTasks tasksData
  = Normal (Some (taskLiteral <$> withIdentifier (toArray tasksData))).
Proof.
  intros Hflat.
  assert (Forall (fun task =>
                    (outlineLevel task <=? 1)%float = true
                    \/ outlineNumber task = JsUndefined)
                 (firstTasks tasksData)) as Hroot.
  { apply Forall_fmap. eapply Forall_impl; [exact Hflat|].
    intros taskData [_ [Hl|Hn]]; [by left|right].
    simpl. unfold or. by rewrite Hn. }
  assert (exists r, parseTasks tasksData = Normal r) as [r Hr].
  { unfold Parser.parseTasks. rewrite firstPass_total.
    2:{ eapply Forall_impl; [exact Hflat|]. by intros taskData [? _]. }
    simpl.
    destruct (buildHierarchy_total (firstTasks tasksData)) as [h ->];
      [|by eexists].
    eapply Forall_impl; [exact Hroot|]. intros task Ht.
    apply findParentTask_total. destruct Ht as [?| ->]; [by left|by right]. }
  rewrite Hr. f_equal.
  rewrite (parseTasks_unfold _ _ _ _ _ _ Hr). cbv zeta.
  apply snapshot_flat; [|apply firstTasks_leaves].
  intros i. unfold Parser.parentOf.
  destruct (firstTasks tasksData !! i) as [task|] eqn:Hi; simpl; [|done].
  rewrite Forall_forall in Hroot.
  destruct (Hroot task (list_elem_of_lookup_2 _ _ _ Hi)) as [-> |Hn]; [done|].
  destruct (outlineLevel task <=? 1)%float; [done|].
  apply findIndex_None. intros p _. unfold nests, isParentOf. rewrite Hn.
  simpl. by destruct (negb _).
Qed.

(** X6.  When the kept records hold strings (or nothing) for [Duration]
    and [OutlineNumber] and the tasks of the first pass are in outline
    order, flattening the parsed tree gives them back in document order,
    not only as a permutation. *)
Theorem parseTasks_keeps_outline_order (tasksData : TasksData) :
  Forall (fun taskData => readAsText taskData = true)
         (withIdentifier (toArray tasksData)) ->
  inOutlineOrder (taskLiteral <$> withIdentifier (toArray tasksData)) ->
  exists trees,
    parseTasks tasksData = Normal (Some trees)
    /\ stripChildren <$> flattenTasks trees
       = taskLiteral <$> withIdentifier (toArray tasksData).
Proof.
  intros (trees & Hparse & Htrees)%parseTasks_text Horder.
  exists trees. split; [done|].
  pose proof (firstTasks_leaves tasksData) as Hleaves.
  set (tasks := firstTasks tasksData) in *.
  destruct tasks as [|task0 rest] eqn:Htasks.
  { simpl in Htrees. by injection Htrees as <-. }
  rewrite <- Htasks in *. clearbody tasks. clear Htasks rest.
  apply mapM_Some_1 in Htrees. rewrite rootTasks_built in Htrees.
  unfold flattenTasks.
  rewrite (snapshot_forest_proj tasks stripChildren (stripChildren task0)
             _ _ _ (fun _ _ => eq_refl) Htrees).
  rewrite (ForestOrder.walk_roots_seq (length tasks) (parentOf tasks)
             (depthOf tasks) (pred (depthBound tasks))).
  - rewrite from_option_seq. by apply stripChildren_leaves.
  - apply parentOf_lt.
  - apply parentOf_depth.
  - intros i Hi. pose proof (depthOf_le tasks i Hi). lia.
  - intros i p Hp. by apply Horder.
  - intros i p j Hp Hj. by apply (Horder i p Hp).
  - unfold depthBound. lia.
Qed.

End Parse.

(** An instance of X3 and of X4: a task without outline number, a task
    with an outline number of three components and its two children, and
    a record without identifier. *)
Lemma parseTasks_keeps_task_data_witness :
  let r uid level number :=
    mkTaskData uid (JsString "Task") JsUndefined JsUndefined
               (JsString "PT8H0M0S") (JsNumber level) number in
  let records :=
    [r (JsNumber 1) 1 JsUndefined; r (JsNumber 2) 3 (JsString "1.1.1");
     r JsUndefined 4 (JsString "1.1.1.1");
     r (JsNumber 3) 4 (JsString "1.1.1.2")]%float in
  exists trees,
    Parser.parseTasks (fun _ => None) 0 (fun _ => 0%float) (fun _ _ => None)
      (TaskArray records) = Normal (Some trees)
    /\ stripChildren <$> flattenTasks trees
       ≡ₚ Parser.taskLiteral (fun _ => None) 0 <$> withIdentifier records.
Proof.
  intros r records.
  apply (parseTasks_keeps_task_data (fun _ => None) 0 (fun _ => 0%float)
           (fun _ _ => None) (TaskArray records)).
  apply (bool_decide_unpack _). vm_compute. exact I.
Defined.

Lemma parseTasks_nesting_witness :
  let r uid level number :=
    mkTaskData uid (JsString "Task") JsUndefined JsUndefined
               (JsString "PT8H0M0S") (JsNumber level) number in
  let records :=
    [r (JsNumber 1) 1 JsUndefined; r (JsNumber 2) 3 (JsString "1.1.1");
     r JsUndefined 4 (JsString "1.1.1.1");
     r (JsNumber 3) 4 (JsString "1.1.1.2")]%float in
  let tasks := Parser.taskLiteral (fun _ => None) 0 <$> withIdentifier records in
  exists trees,
    Parser.parseTasks (fun _ => None) 0 (fun _ => 0%float) (fun _ _ => None)
      (TaskArray records) = Normal (Some trees)
    /\ Forall (fun r => wellNested r = true) trees
    /\ Forall (fun r => findParentTask r tasks = Normal None) trees
    /\ stripChildren <$> trees `sublist_of` tasks.
Proof.
  intros r records tasks.
  apply (parseTasks_nesting (fun _ => None) 0 (fun _ => 0%float)
           (fun _ _ => None) (TaskArray records)).
  apply (bool_decide_unpack _). vm_compute. exact I.
Defined.

(** An instance of X5: three records at level 1 with the outline numbers
    1, 2 and 3 as numbers, the second without an identifier. *)
Lemma parseTasks_flat_witness :
  let r uid number :=
    mkTaskData uid (JsString "Task") JsUndefined JsUndefined JsUndefined
               (JsNumber 1) (JsNumber number) in
  let records :=
    [r (JsNumber 1) 1; r JsUndefined 2; r (JsNumber 3) 3]%float in
  Parser.parseTasks (fun _ => None) 0 (fun _ => 0%float) (fun _ _ => None)
    (TaskArray records)
  = Normal (Some (Parser.taskLiteral (fun _ => None) 0
                    <$> withIdentifier (toArray (TaskArray records)))).
Proof.
  intros r records.
  apply (parseTasks_flat (fun _ => None) 0 (fun _ => 0%float)
           (fun _ _ => None) (TaskArray records)).
  apply (bool_decide_unpack _). vm_compute. exact I.
Defined.

(** An instance of X6: the outline 1.1.1, 1.1.1.1, 1.1.1.2, 1.1.2. *)
Lemma parseTasks_keeps_outline_order_witness :
  let r uid level number :=
    mkTaskData (JsNumber uid) JsUndefined JsUndefined JsUndefined
               JsUndefined (JsNumber level) (JsString number) in
  let records :=
    [r 1 3 "1.1.1"; r 2 4 "1.1.1.1"; r 3 4 "1.1.1.2"; r 4 3 "1.1.2"]%float in
  exists trees,
    Parser.parseTasks (fun _ => None) 0 (fun _ => 0%float) (fun _ _ => None)
      (TaskArray records) = Normal (Some trees)
    /\ stripChildren <$> flattenTasks trees
       = Parser.taskLiteral (fun _ => None) 0 <$> withIdentifier records.
Proof.
  intros r records.
  apply (parseTasks_keeps_outline_order (fun _ => None) 0 (fun _ => 0%float)
           (fun _ _ => None) (TaskArray records)).
  { apply (bool_decide_unpack _). vm_compute. exact I. }
  intros i p Hp.
  destruct i as [|[|[|[|i]]]]; vm_compute in Hp; try discriminate;
    injection Hp as <-; (split; [lia|]); intros j Hj.
  - lia.
  - assert (j = 1%nat) as -> by lia. exists 0%nat. split; [|lia].
    vm_compute. reflexivity.
Defined.

End ParserMoreFacts.

(** ** Queries on the loaded schedule *)

Module QueriesFacts.
Import Js Timeline Scheduling Scheduling.Entity Queries.
Import TimelineFacts ParserMore ParserMoreFacts.

Lemma taskMap_loadTasks (ts : list ScheduleTask) (s : Scheduling4DModule) :
  taskMap (loadTasks ts s)
  = foldl (fun m task => <[Task.taskId task := task]> m) ∅ (flattenTasks ts).
Proof.
  unfold loadTasks, calculateProjectTimeline. simpl.
  destruct (getFlatTasks _); [done|]. by destruct (foldl minMaxStep _ _).
Qed.

Lemma tasks_loadTasks (ts : list ScheduleTask) (s : Scheduling4DModule) :
  tasks (loadTasks ts s) = ts.
Proof.
  unfold loadTasks, calculateProjectTimeline. simpl.
  destruct (getFlatTasks _); [done|]. by destruct (foldl minMaxStep _ _).
Qed.

(** In a map filled by successive [set] calls the last entry for a key
    wins. *)
Lemma foldl_set_lookup (l : list ScheduleTask)
    (m0 : gmap string ScheduleTask) (k : string) :
  foldl (fun m task => <[Task.taskId task := task]> m) m0 l !! k
  = match last (filter (fun task => Task.taskId task = k) l) with
    | Some task => Some task
    | None => m0 !! k
    end.
Proof.
  revert m0. induction l as [|task l IH]; intros m0; simpl; [done|].
  rewrite IH, filter_cons. destruct (decide (Task.taskId task = k)) as [<-|].
  - rewrite last_cons. destruct (last _); [done|].
    by rewrite lookup_insert_eq.
  - destruct (last _); [done|]. by rewrite lookup_insert_ne.
Qed.

Lemma last_filter_unique (l : list ScheduleTask) (task : ScheduleTask) :
  NoDup (Task.taskId <$> l) -> task ∈ l ->
  last (filter (fun t => Task.taskId t = Task.taskId task) l) = Some task.
Proof.
  induction l as [|t l IH]; simpl.
  - by intros _ ?%elem_of_nil.
  - rewrite NoDup_cons, elem_of_cons, filter_cons. intros [Ht Hl] Hin.
    destruct (decide (Task.taskId t = Task.taskId task)) as [Heq|Hne].
    + destruct Hin as [->|Hin].
      * rewrite last_cons, filter_none; [done|].
        intros y Hy Hey. apply Ht. rewrite <- Hey.
        by apply list_elem_of_fmap_2.
      * exfalso. apply Ht. rewrite Heq. by apply list_elem_of_fmap_2.
    + destruct Hin as [->|Hin]; [done|]. by apply IH.
Qed.

(** X7.  After [loadTasks], [getTask] finds for an identifier the last
    task of the flattened tree that carries it, and nothing of an earlier
    load: with distinct identifiers every task of the tree is found under
    its own, and an identifier that no task carries gives [undefined]. *)
Theorem getTask_after_loadTasks (ts : list ScheduleTask)
    (s : Scheduling4DModule) (taskId : string) :
  getTask taskId (loadTasks ts s)
  = last (filter (fun task => Task.taskId task = taskId) (flattenTasks ts))
  /\ (NoDup (Task.taskId <$> flattenTasks ts) ->
      forall task, task ∈ flattenTasks ts ->
                   getTask (Task.taskId task) (loadTasks ts s) = Some task)
  /\ (taskId ∉ Task.taskId <$> flattenTasks ts ->
      getTask taskId (loadTasks ts s) = None).
Proof.
  unfold getTask. rewrite taskMap_loadTasks.
  split_and!.
  - rewrite foldl_set_lookup. by destruct (last _).
  - intros Hnd task Hin. rewrite foldl_set_lookup.
    by rewrite last_filter_unique.
  - intros Hnot. rewrite foldl_set_lookup, filter_none; [done|].
    intros task Hin Heq. apply Hnot. rewrite <- Heq.
    by apply list_elem_of_fmap_2.
Qed.

(** After [loadTasks] every task lies inside the project window. *)
Lemma loadTasks_bounds (ts : list ScheduleTask) (s : Scheduling4DModule)
    (task : ScheduleTask) :
  task ∈ flattenTasks ts ->
  startDate (timelineState (loadTasks ts s)) <= Task.startDate task
  /\ Task.endDate task <= endDate (timelineState (loadTasks ts s)).
Proof.
  intros Hin. unfold loadTasks, calculateProjectTimeline.
  unfold getFlatTasks. cbn [tasks setTasks].
  destruct (flattenTasks ts) as [|first flat] eqn:Hflat.
  { by apply elem_of_nil in Hin. }
  pose proof (minMax_foldl (first :: flat) (Task.startDate first)
                (Task.endDate first)) as [[_ Hm] [_ HM]].
  destruct (foldl minMaxStep _ (first :: flat)) as [minDate maxDate].
  simpl in *. split.
  - apply Hm. right.
    by apply (list_elem_of_fmap_2 Task.startDate (first :: flat)).
  - apply HM. right.
    by apply (list_elem_of_fmap_2 Task.endDate (first :: flat)).
Qed.

(** X8.  After [loadTasks] no task is active on a date outside the project
    window: [getActiveTasksOnDate] is empty before [startDate] and after
    [endDate], and on an Invalid Date. *)
Theorem no_active_task_outside_window (ts : list ScheduleTask)
    (s : Scheduling4DModule) (date : Z) :
  date < startDate (timelineState (loadTasks ts s))
  \/ endDate (timelineState (loadTasks ts s)) < date ->
  getActiveTasksOnDate (ValidDate date) (loadTasks ts s) = []
  /\ getActiveTasksOnDate InvalidDate (loadTasks ts s) = [].
Proof.
  intros Hout. unfold getActiveTasksOnDate, getFlatTasks.
  rewrite tasks_loadTasks. split; apply filter_none; [|done].
  intros task Hin [Hs He]%andb_true_iff.
  destruct (loadTasks_bounds ts s task Hin) as [Hlo Hhi].
  unfold dateLe, dateGe in *. lia.
Qed.

(** An instance of X8: two tasks from day 10 to day 30, asked on day 31. *)
Lemma no_active_task_outside_window_witness :
  let ts :=
    [Task.mkTask "task_1" "1" (JsString "A") 10 20 1 JsUndefined [];
     Task.mkTask "task_2" "2" (JsString "B") 15 30 1 JsUndefined []] in
  getActiveTasksOnDate (ValidDate 31) (loadTasks ts (create 0)) = []
  /\ getActiveTasksOnDate InvalidDate (loadTasks ts (create 0)) = [].
Proof.
  intros ts. apply (no_active_task_outside_window ts (create 0) 31).
  right. vm_compute. reflexivity.
Defined.

(** X9.  From the document to the lookup: when the kept records hold
    strings (or nothing) for [Duration] and [OutlineNumber] and carry
    distinct identifiers, then after parsing and [loadTasks], [getTask]
    finds under the string form of each such identifier the task built from
    that record (with its children attached). *)
Theorem parsed_task_found_by_UID (dateParse : string -> option Z) (now : Z)
    (parseFloat : string -> float)
    (regExpMatch : string -> string -> option string)
    (tasksData : Parser.TasksData) (s : Scheduling4DModule) :
  Forall (fun taskData => Parser.readAsText taskData = true)
         (Parser.withIdentifier (Parser.toArray tasksData)) ->
  NoDup ((fun taskData => toString (Parser.UID taskData))
           <$> Parser.withIdentifier (Parser.toArray tasksData)) ->
  exists trees,
    Parser.parseTasks dateParse now parseFloat regExpMatch tasksData
    = Normal (Some trees)
    /\ forall taskData,
         taskData ∈ Parser.withIdentifier (Parser.toArray tasksData) ->
         exists task,
           getTask (toString (Parser.UID taskData)) (loadTasks trees s)
           = Some task
           /\ stripChildren task = Parser.taskLiteral dateParse now taskData.
Proof.
  intros Htext Hnd.
  destruct (parseTasks_text dateParse now parseFloat regExpMatch
              tasksData Htext) as (trees & Hparse & Htrees).
  exists trees. split; [done|]. intros taskData Hin.
  set (records := Parser.withIdentifier (Parser.toArray tasksData)) in *.
  pose proof (hierarchy_flatten_proj _ stripChildren trees
                (fun _ _ => eq_refl) Htrees) as Hperm.
  rewrite (stripChildren_leaves (Parser.taskLiteral dateParse now <$> records))
    in Hperm by (apply Forall_fmap, Forall_forall; done).
  destruct (ParserFacts.parseTasks_normal _ _ _ _ _ _ Hparse)
    as (trees' & [= <-] & Hids). fold records in Hids.
  assert (NoDup (Task.taskId <$> flattenTasks trees)) as Hnd'
    by (by rewrite Hids).
  assert (Parser.taskLiteral dateParse now taskData
          ∈ stripChildren <$> flattenTasks trees) as Hmem.
  { rewrite Hperm. by apply list_elem_of_fmap_2. }
  apply list_elem_of_fmap in Hmem as (task & Heq & Htask).
  exists task. split; [|done].
  replace (toString (Parser.UID taskData)) with (Task.taskId task).
  - unfold getTask. rewrite taskMap_loadTasks, foldl_set_lookup.
    by rewrite last_filter_unique.
  - change (Task.taskId task) with (Task.taskId (stripChildren task)).
    by rewrite <- Heq.
Qed.

(** An instance of X9: the outline 1.1.1, 1.1.1.1 with the identifiers 7
    and 8. *)
Lemma parsed_task_found_by_UID_witness :
  let r uid level number :=
    Parser.mkTaskData (JsNumber uid) JsUndefined JsUndefined JsUndefined
                      JsUndefined (JsNumber level) (JsString number) in
  let records := [r 7 3 "1.1.1"; r 8 4 "1.1.1.1"]%float in
  exists trees,
    Parser.parseTasks (fun _ => None) 0 (fun _ => 0%float) (fun _ _ => None)
      (Parser.TaskArray records)
    = Normal (Some trees)
    /\ forall taskData,
         taskData
         ∈ Parser.withIdentifier (Parser.toArray (Parser.TaskArray records)) ->
         exists task,
           getTask (toString (Parser.UID taskData))
                   (loadTasks trees (create 0))
           = Some task
           /\ stripChildren task
              = Parser.taskLiteral (fun _ => None) 0 taskData.
Proof.
  intros r records.
  apply (parsed_task_found_by_UID (fun _ => None) 0 (fun _ => 0%float)
           (fun _ _ => None) (Parser.TaskArray records) (create 0)).
  - apply (bool_decide_unpack _). vm_compute. exact I.
  - apply (bool_decide_unpack _). vm_compute. exact I.
Defined.

End QueriesFacts.

(** ** More on the link store *)

Module LinkMoreFacts.
Import Js Timeline Scheduling Scheduling.Entity Queries.
Import LinkFacts ParserMoreFacts.

Lemma linked_lookup taskId e s :
  linked taskId e s -> exists L, entityLinks s !! taskId = Some L.
Proof.
  unfold linked, getTaskLinks.
  destruct (entityLinks s !! taskId) as [L|]; [by exists L|done].
Qed.

(** Linking an entity that is linked already returns the state as it
    is. *)
Lemma link_noop now taskId entity s :
  linked taskId (expressId entity) s ->
  linkEntityToTask now taskId entity s = s.
Proof.
  intros Hl. destruct (linked_lookup _ _ _ Hl) as [L HL].
  unfold linked in Hl. unfold linkEntityToTask. rewrite HL. cbv zeta.
  by rewrite Hl.
Qed.

Lemma link_fresh now taskId entity s :
  ~ linked taskId (expressId entity) s ->
  linkEntityToTask now taskId entity s
  = emit (LinksUpdated taskId
            (getTaskLinks taskId s ++ [makeLink now taskId entity]))
      (setEntityLinks
         (<[taskId := getTaskLinks taskId s ++ [makeLink now taskId entity]]>
            (entityLinks s)) s).
Proof.
  unfold linked. intros Hl%not_true_is_false.
  unfold linkEntityToTask, getTaskLinks in *.
  destruct (entityLinks s !! taskId) as [L|] eqn:HL; simpl in *.
  - rewrite HL. simpl. by rewrite Hl.
  - rewrite lookup_insert_eq. simpl. by rewrite insert_insert_eq.
Qed.

Lemma linked_link_inv now taskId entity s t e :
  linked t e (linkEntityToTask now taskId entity s) ->
  linked t e s \/ (t = taskId /\ e = expressId entity).
Proof.
  unfold linked, getTaskLinks at 1. rewrite link_lookup.
  destruct (decide (t = taskId)) as [->|]; [|by left]. simpl.
  destruct (alreadyLinked (expressId entity) _); [by left|].
  rewrite !alreadyLinked_elem, fmap_app, elem_of_app.
  intros [?|Hnew]; [by left|right].
  simpl in Hnew. by apply list_elem_of_singleton in Hnew.
Qed.

Lemma filter_ne_id (e : Z) (links : list TaskEntityLink) :
  length (filter (fun l => entityExpressId l = e) links) = 0%nat ->
  filter (fun l => entityExpressId l <> e) links = links.
Proof.
  induction links as [|l links IH]; [done|].
  rewrite !filter_cons.
  destruct (decide (entityExpressId l = e)) as [He|He]; [done|].
  rewrite decide_True by done. intros Hc. f_equal. by apply IH.
Qed.

(** X10.  Linking an entity to a task and then unlinking it leaves the
    task with its earlier links to other entities, in their order; this
    is the earlier list itself when the entity was not linked before.
    The link lists of the other tasks are not touched. *)
Theorem link_then_unlink (now : Z) (taskId : string) (entity : EntityInfo)
    (s : Scheduling4DModule) :
  let s' := unlinkEntityFromTask taskId (expressId entity)
              (linkEntityToTask now taskId entity s) in
  getTaskLinks taskId s'
  = filter (fun l => entityExpressId l <> expressId entity)
           (getTaskLinks taskId s)
  /\ (linkCount taskId (expressId entity) s = 0%nat ->
      getTaskLinks taskId s' = getTaskLinks taskId s)
  /\ (forall t', t' <> taskId -> entityLinks s' !! t' = entityLinks s !! t').
Proof.
  intros s'.
  pose proof (link_lookup now taskId entity s taskId) as Hk.
  rewrite decide_True in Hk by done.
  assert (getTaskLinks taskId s'
          = filter (fun l => entityExpressId l <> expressId entity)
                   (getTaskLinks taskId s)) as Hget.
  { subst s'. rewrite (unlink_lookup _ _ _ _ Hk). cbv zeta.
    unfold getTaskLinks at 1. simpl. rewrite lookup_insert_eq. simpl.
    destruct (alreadyLinked _ _); [done|].
    rewrite filter_app, (filter_singleton _ _ []).
    rewrite decide_False by (simpl; tauto). by rewrite app_nil_r. }
  split_and!; [done| |].
  - intros Hc. rewrite Hget. by apply filter_ne_id.
  - intros t' Hne. subst s'. rewrite (unlink_lookup _ _ _ _ Hk). cbv zeta.
    simpl. rewrite lookup_insert_ne by done.
    rewrite link_lookup. by rewrite decide_False.
Qed.

Section WithHost.

Variable RegExp : Type.
Variable newRegExp : string -> string -> Completion RegExp.
Variable test : RegExp -> string -> bool.

Local Abbreviation doesEntityMatchRule :=
  (doesEntityMatchRule RegExp newRegExp test).
Local Abbreviation applyRule := (applyRule RegExp newRegExp test).
Local Abbreviation applyRules := (applyRules RegExp newRegExp test).
Local Abbreviation applyRulesToEntities :=
  (applyRulesToEntities RegExp newRegExp test).
Local Abbreviation step := (step RegExp newRegExp test).
Local Abbreviation run := (run RegExp newRegExp test).

(** *** A property of the state that [linkEntityToTask] keeps is kept by
    the loops of [applyRulesToEntities]. *)

Section LoopInvariant.

Variable P : Scheduling4DModule -> Prop.
Variable taskId : string.

Hypothesis P_link : forall now entity s,
  P s -> P (linkEntityToTask now taskId entity s).

Lemma applyRule_keeps now r entities s :
  P s -> P (snd (applyRule now taskId r entities s)).
Proof.
  revert s. induction entities as [|entity rest IH]; intros s Hs; simpl;
    [done|].
  destruct (doesEntityMatchRule entity r) as [[|]|e]; simpl; auto.
Qed.

Lemma applyRules_keeps now rules entities s :
  P s -> P (snd (applyRules now taskId rules entities s)).
Proof.
  revert s. induction rules as [|r rest IH]; intros s Hs; simpl; [done|].
  destruct (isActive r); simpl; [|auto].
  pose proof (applyRule_keeps now r entities s Hs) as Hr.
  destruct (applyRule now taskId r entities s) as [[[]|e] s'];
    simpl in *; auto.
Qed.

End LoopInvariant.

Lemma applyRules_normal now taskId rules entities s :
  fst (applyRules now taskId rules entities s) = Normal tt.
Proof.
  revert s. induction rules as [|r rest IH]; intros s; simpl; [done|].
  destruct (isActive r); simpl; [|auto].
  pose proof (applyRule_normal RegExp newRegExp test now taskId r entities s)
    as Hn.
  destruct (applyRule now taskId r entities s) as [c s']. simpl in Hn.
  subst c. apply IH.
Qed.

Lemma applyRule_sound now taskId r entities s t e :
  linked t e (snd (applyRule now taskId r entities s)) ->
  linked t e s
  \/ (t = taskId
      /\ exists entity, entity ∈ entities /\ expressId entity = e
                        /\ doesEntityMatchRule entity r = Normal true).
Proof.
  revert s. induction entities as [|entity rest IH]; intros s; simpl;
    [by left|].
  destruct (doesEntityMatchRule entity r) as [[|]|err] eqn:Hm; simpl.
  - intros [Hl|(-> & entity' & Hin & He & Hm')]%IH.
    + apply linked_link_inv in Hl as [?|[-> ->]]; [by left|right].
      split; [done|]. exists entity. split_and!; [left|done|done].
    + right. split; [done|]. exists entity'. split_and!; [by right|done..].
  - intros [Hl|(-> & entity' & Hin & He & Hm')]%IH; [by left|right].
    split; [done|]. exists entity'. split_and!; [by right|done..].
  - by left.
Qed.

Lemma applyRules_sound now taskId rules entities s t e :
  linked t e (snd (applyRules now taskId rules entities s)) ->
  linked t e s
  \/ (t = taskId
      /\ exists entity r,
           entity ∈ entities /\ expressId entity = e
           /\ r ∈ rules /\ isActive r = true
           /\ doesEntityMatchRule entity r = Normal true).
Proof.
  revert s. induction rules as [|r rest IH]; intros s; simpl; [by left|].
  destruct (isActive r) eqn:Hactive; simpl.
  - pose proof (applyRule_sound now taskId r entities s t e) as Hr.
    destruct (applyRule now taskId r entities s) as [[[]|err] s'];
      simpl in *.
    + intros [Hl|(-> & entity & r' & ? & ? & ? & ? & ?)]%IH.
      * destruct (Hr Hl) as [?|(-> & entity & ? & ? & ?)]; [by left|right].
        split; [done|]. exists entity, r. split_and!; [done|done|left|done..].
      * right. split; [done|]. exists entity, r'.
        split_and!; [done|done|by right|done..].
    + intros Hl.
      destruct (Hr Hl) as [?|(-> & entity & ? & ? & ?)]; [by left|right].
      split; [done|]. exists entity, r. split_and!; [done|done|left|done..].
  - intros [Hl|(-> & entity & r' & ? & ? & ? & ? & ?)]%IH; [by left|right].
    split; [done|]. exists entity, r'.
    split_and!; [done|done|by right|done..].
Qed.

(** X11.  [applyRulesToEntities] completes without throwing and links
    exactly what the rules ask for: afterwards a task is linked to an
    entity if and only if it was linked to it before, or it is the given
    task and the entity is one of the given entities that matches an
    active rule of the task.  The link lists of the other tasks and the
    rules are not touched. *)
Theorem applyRules_links_exactly_the_matches (now : Z) (taskId : string)
    (entities : list EntityInfo) (s : Scheduling4DModule) :
  let s' := snd (applyRulesToEntities now taskId entities s) in
  fst (applyRulesToEntities now taskId entities s) = Normal tt
  /\ (forall t e,
        linked t e s'
        <-> linked t e s
            \/ (t = taskId
                /\ exists entity r,
                     entity ∈ entities /\ expressId entity = e
                     /\ r ∈ getTaskRules taskId s /\ isActive r = true
                     /\ doesEntityMatchRule entity r = Normal true))
  /\ (forall t', t' <> taskId -> entityLinks s' !! t' = entityLinks s !! t')
  /\ linkRules s' = linkRules s.
Proof.
  intros s'. subst s'. unfold Scheduling.applyRulesToEntities.
  split_and!.
  - apply applyRules_normal.
  - intros t e. split.
    + apply applyRules_sound.
    + intros [Hl|(-> & entity & r & Hin & <- & Hr & Hactive & Hm)].
      * by apply applyRules_mono.
      * by eapply applyRules_links.
  - intros t' Hne.
    apply (applyRules_keeps
             (fun x => entityLinks x !! t' = entityLinks s !! t') taskId);
      [|done].
    intros now' entity x Hx. rewrite link_lookup. by rewrite decide_False.
  - apply (applyRules_keeps (fun x => linkRules x = linkRules s) taskId);
      [|done].
    intros now' entity x Hx. rewrite <- Hx. unfold linkEntityToTask.
    destruct (entityLinks x !! taskId); simpl;
      by destruct (alreadyLinked _ _).
Qed.

(** Where every match is linked already, the loops change nothing. *)
Lemma applyRule_noop now taskId r entities s :
  (forall entity, entity ∈ entities ->
                  doesEntityMatchRule entity r = Normal true ->
                  linked taskId (expressId entity) s) ->
  applyRule now taskId r entities s = (Normal tt, s).
Proof.
  induction entities as [|entity rest IH]; intros Hall; simpl; [done|].
  destruct (doesEntityMatchRule_normal RegExp newRegExp test entity r)
    as [[|] Hm]; rewrite Hm.
  - rewrite link_noop by (apply Hall; [left|done]).
    apply IH. intros entity' Hin. apply Hall. by right.
  - apply IH. intros entity' Hin. apply Hall. by right.
Qed.

Lemma applyRules_noop now taskId rules entities s :
  (forall entity r, entity ∈ entities -> r ∈ rules -> isActive r = true ->
                    doesEntityMatchRule entity r = Normal true ->
                    linked taskId (expressId entity) s) ->
  applyRules now taskId rules entities s = (Normal tt, s).
Proof.
  induction rules as [|r rest IH]; intros Hall; simpl; [done|].
  destruct (isActive r) eqn:Hactive; simpl.
  - rewrite applyRule_noop.
    + apply IH. intros entity r' Hin Hr. apply Hall; [done|by right].
    + intros entity Hin Hm. apply (Hall entity r); [done|left|done..].
  - apply IH. intros entity r' Hin Hr. apply Hall; [done|by right].
Qed.

(** X12.  [applyRulesToEntities] is idempotent: a second call for the same
    task and entities finds every match linked and returns the state of
    the first call, without any notification. *)
Theorem applyRules_twice (now1 now2 : Z) (taskId : string)
    (entities : list EntityInfo) (s : Scheduling4DModule) :
  let s1 := snd (applyRulesToEntities now1 taskId entities s) in
  applyRulesToEntities now2 taskId entities s1 = (Normal tt, s1).
Proof.
  intros s1. unfold Scheduling.applyRulesToEntities at 1.
  assert (getTaskRules taskId s1 = getTaskRules taskId s) as ->.
  { unfold getTaskRules. f_equal. f_equal. subst s1.
    unfold Scheduling.applyRulesToEntities.
    apply (applyRules_keeps (fun x => linkRules x = linkRules s) taskId);
      [|done].
    intros now' entity x Hx. rewrite <- Hx. unfold linkEntityToTask.
    destruct (entityLinks x !! taskId); simpl;
      by destruct (alreadyLinked _ _). }
  apply applyRules_noop. intros entity r Hin Hr Hactive Hm.
  subst s1. unfold Scheduling.applyRulesToEntities.
  by eapply applyRules_links.
Qed.

(** X13.  After any sequence of calls the link store holds at most one
    link per task and entity, and every link is one that
    [linkEntityToTask] built for the task it is stored under: it carries
    that task's identifier, and its own identifier is made of the task,
    the entity and a clock reading. *)
Theorem link_store_invariant (t0 : Z) (ops : list Op) :
  linksUnique (run t0 ops)
  /\ map_Forall
       (fun taskId links =>
          Forall (fun l => exists now entity, l = makeLink now taskId entity)
                 links)
       (entityLinks (run t0 ops)).
Proof.
  split; [apply run_linksUnique|].
  apply (run_inv RegExp newRegExp test
           (map_Forall (fun taskId links =>
              Forall (fun l => exists now entity,
                                 l = makeLink now taskId entity) links))).
  - apply map_Forall_empty.
  - intros now taskId entity s Hs t' links. rewrite link_lookup.
    destruct (decide (t' = taskId)) as [->|]; [|by apply Hs].
    assert (Forall (fun l => exists now entity,
                               l = makeLink now taskId entity)
                   (getTaskLinks taskId s)) as HL.
    { unfold getTaskLinks.
      destruct (entityLinks s !! taskId) as [L|] eqn:HL; simpl;
        [by eapply Hs|constructor]. }
    destruct (alreadyLinked _ _); intros [= <-]; [done|].
    apply Forall_app. split; [done|]. constructor; [|done]. by eexists _, _.
  - intros taskId e s Hs t' links. unfold unlinkEntityFromTask.
    destruct (entityLinks s !! taskId) as [L|] eqn:HL; [|by apply Hs].
    simpl. destruct (decide (t' = taskId)) as [->|].
    + rewrite lookup_insert_eq. intros [= <-].
      specialize (Hs taskId L HL). simpl in Hs.
      rewrite Forall_forall in Hs |- *.
      intros l [_ Hin]%list_elem_of_filter. by apply Hs.
    + rewrite lookup_insert_ne by done. apply Hs.
Qed.

Lemma taskLinks_snoc (events : list Event) (e : Event) :
  Hook.taskLinks (events ++ [e])
  = Hook.onLinksUpdated (Hook.taskLinks events) e.
Proof. unfold Hook.taskLinks. by rewrite foldl_snoc. Qed.

Lemma lastTimelineState_snoc (events : list Event) (e : Event) :
  Hook.lastTimelineState (events ++ [e])
  = Hook.onTimelineStateChanged (Hook.lastTimelineState events) e.
Proof. unfold Hook.lastTimelineState. by rewrite foldl_snoc. Qed.

Lemma trace_stopAnimation s : trace (stopAnimation s) = trace s.
Proof. unfold stopAnimation. by destruct (animationFrameId s). Qed.

Lemma mirror_link now taskId entity s :
  Hook.taskLinks (trace s) = entityLinks s ->
  Hook.taskLinks (trace (linkEntityToTask now taskId entity s))
  = entityLinks (linkEntityToTask now taskId entity s).
Proof.
  intros Hs.
  destruct (alreadyLinked (expressId entity) (getTaskLinks taskId s))
    eqn:Hl.
  - by rewrite link_noop.
  - rewrite link_fresh by (unfold linked; congruence).
    simpl. rewrite taskLinks_snoc. simpl. by rewrite Hs.
Qed.

Lemma mirror_unlink taskId e s :
  Hook.taskLinks (trace s) = entityLinks s ->
  Hook.taskLinks (trace (unlinkEntityFromTask taskId e s))
  = entityLinks (unlinkEntityFromTask taskId e s).
Proof.
  intros Hs. unfold unlinkEntityFromTask.
  destruct (entityLinks s !! taskId) as [L|]; [|done].
  simpl. rewrite taskLinks_snoc. simpl. by rewrite Hs.
Qed.

Lemma mirror_step s o :
  o <> OpDispose ->
  Hook.taskLinks (trace s) = entityLinks s ->
  Hook.taskLinks (trace (step s o)) = entityLinks (step s o).
Proof.
  intros Ho Hs. destruct o; simpl; try done.
  - unfold loadTasks, calculateProjectTimeline. simpl.
    destruct (getFlatTasks _); simpl.
    + by rewrite taskLinks_snoc.
    + destruct (foldl minMaxStep _ _). simpl.
      by rewrite !taskLinks_snoc.
  - by apply mirror_link.
  - by apply mirror_unlink.
  - apply (applyRules_keeps
             (fun x => Hook.taskLinks (trace x) = entityLinks x) taskId);
      [|done].
    intros now' entity x Hx. by apply mirror_link.
  - by rewrite taskLinks_snoc.
  - by rewrite taskLinks_snoc.
  - unfold play. destruct (isPlaying _); [done|]. simpl.
    by rewrite taskLinks_snoc.
  - unfold pause. rewrite trace_stopAnimation, entityLinks_stopAnimation.
    simpl. by rewrite taskLinks_snoc.
  - unfold reset. simpl.
    rewrite taskLinks_snoc, trace_stopAnimation, entityLinks_stopAnimation.
    done.
  - unfold animate. destruct (isPlaying _); simpl; [|done].
    rewrite taskLinks_snoc. simpl.
    destruct (dateGt _ _); simpl; [|done].
    unfold pause. rewrite trace_stopAnimation, entityLinks_stopAnimation.
    simpl. by rewrite taskLinks_snoc.
Qed.

(** X14.  The notifications of [onLinksUpdated] suffice to follow the link
    store: as long as [dispose] is not called, the map that the hook
    builds from them equals the store of the module. *)
Theorem hook_taskLinks_mirror (t0 : Z) (ops : list Op) :
  OpDispose ∉ ops ->
  Hook.taskLinks (trace (run t0 ops)) = entityLinks (run t0 ops).
Proof.
  induction ops as [|o ops IH] using rev_ind; [done|].
  rewrite not_elem_of_app, not_elem_of_cons. intros (Hops & Ho & _).
  rewrite (run_snoc RegExp newRegExp test). apply mirror_step; [done|].
  by apply IH.
Qed.

Lemma run_app t0 ops ops' :
  run t0 (ops ++ ops') = foldl step (run t0 ops) ops'.
Proof. unfold Scheduling.run. by rewrite foldl_app. Qed.

Lemma linkEntitiesToTask_run now taskId entities s :
  Hook.linkEntitiesToTask now taskId entities s
  = foldl step s (OpLink now taskId <$> entities).
Proof.
  unfold Hook.linkEntitiesToTask. revert s.
  induction entities as [|entity rest IH]; intros s; simpl; [done|].
  apply IH.
Qed.

Lemma linkEntitiesToTask_linked now taskId entities s t e :
  linked t e (Hook.linkEntitiesToTask now taskId entities s)
  <-> linked t e s
      \/ (t = taskId
          /\ exists entity, entity ∈ entities /\ expressId entity = e).
Proof.
  unfold Hook.linkEntitiesToTask. revert s.
  induction entities as [|entity rest IH]; intros s; simpl.
  - split; [by left|]. intros [?|(_ & entity & ?%elem_of_nil & _)]; done.
  - rewrite IH. split.
    + intros [Hl|(-> & entity' & Hin & He)].
      * apply linked_link_inv in Hl as [?|[-> ->]]; [by left|right].
        split; [done|]. exists entity. split; [left|done].
      * right. split; [done|]. exists entity'. split; [by right|done].
    + intros [Hl|(-> & entity' & Hin & He)].
      * left. by apply link_mono.
      * apply elem_of_cons in Hin as [->|Hin].
        -- left. subst e. apply link_linked.
        -- right. split; [done|]. by exists entity'.
Qed.

(** X15.  The hook's [linkEntitiesToTask], in the state after any
    sequence of calls, leaves exactly one link of the task to each of the
    given entities, also when the list names an entity twice or the
    entity was linked before; and it links nothing else. *)
Theorem hook_linkEntitiesToTask (t0 : Z) (ops : list Op) (now : Z)
    (taskId : string) (entities : list EntityInfo) :
  let s := run t0 ops in
  let s' := Hook.linkEntitiesToTask now taskId entities s in
  (forall entity, entity ∈ entities ->
                  linkCount taskId (expressId entity) s' = 1%nat)
  /\ (forall t e,
        linked t e s'
        <-> linked t e s
            \/ (t = taskId
                /\ exists entity, entity ∈ entities
                                  /\ expressId entity = e)).
Proof.
  intros s s'. split; [|apply linkEntitiesToTask_linked].
  intros entity Hin. apply linkCount_one.
  - subst s' s. rewrite linkEntitiesToTask_run, <- run_app.
    apply run_linksUnique.
  - apply linkEntitiesToTask_linked. right. split; [done|]. by exists entity.
Qed.

Lemma timeline_link now taskId entity s :
  timelineState (linkEntityToTask now taskId entity s) = timelineState s
  /\ Hook.lastTimelineState (trace (linkEntityToTask now taskId entity s))
     = Hook.lastTimelineState (trace s).
Proof.
  destruct (alreadyLinked (expressId entity) (getTaskLinks taskId s))
    eqn:Hl.
  - by rewrite link_noop.
  - rewrite link_fresh by (unfold linked; congruence).
    simpl. by rewrite lastTimelineState_snoc.
Qed.

Lemma timelineTold_emit t0 s :
  Hook.timelineTold t0 (emit (TimelineStateChanged (timelineState s)) s).
Proof. left. simpl. by rewrite lastTimelineState_snoc. Qed.

Lemma timelineTold_frame t0 s s' :
  timelineState s' = timelineState s ->
  Hook.lastTimelineState (trace s') = Hook.lastTimelineState (trace s) ->
  Hook.timelineTold t0 s -> Hook.timelineTold t0 s'.
Proof. unfold Hook.timelineTold. by intros -> ->. Qed.

Lemma timelineTold_step t0 s o :
  Hook.timelineTold t0 s -> Hook.timelineTold t0 (step s o).
Proof.
  intros Hs. destruct o; simpl.
  - unfold loadTasks, calculateProjectTimeline. simpl.
    destruct (getFlatTasks _); simpl.
    + apply (timelineTold_frame t0 s); [done| |done]. simpl.
      by rewrite lastTimelineState_snoc.
    + destruct (foldl minMaxStep _ _). left. simpl.
      by rewrite !lastTimelineState_snoc.
  - destruct (timeline_link now taskId entity s).
    by apply (timelineTold_frame t0 s).
  - unfold unlinkEntityFromTask. destruct (entityLinks s !! taskId); [|done].
    apply (timelineTold_frame t0 s); [done| |done]. simpl.
    by rewrite lastTimelineState_snoc.
  - done.
  - done.
  - apply (applyRules_keeps (Hook.timelineTold t0) taskId); [|done].
    intros now' entity x Hx. destruct (timeline_link now' taskId entity x).
    by apply (timelineTold_frame t0 x).
  - apply (timelineTold_emit t0 (setTimelineState _ s)).
  - apply (timelineTold_emit t0 (setTimelineState _ s)).
  - unfold play. destruct (isPlaying _); [done|].
    left. simpl. by rewrite lastTimelineState_snoc.
  - unfold pause. left.
    rewrite trace_stopAnimation, TimelineFacts.timelineState_stopAnimation.
    simpl. by rewrite lastTimelineState_snoc.
  - unfold reset. left. simpl. by rewrite lastTimelineState_snoc.
  - unfold animate. destruct (isPlaying _); simpl; [|done].
    left. simpl. by rewrite lastTimelineState_snoc.
  - unfold dispose. apply (timelineTold_frame t0 s); [| |done]; simpl.
    + apply TimelineFacts.timelineState_stopAnimation.
    + by rewrite trace_stopAnimation.
Qed.

(** X16.  Every change of the timeline state is notified: after any
    sequence of calls, the state last passed to [onTimelineStateChanged]
    is the timeline state of the module, or nothing was passed yet and
    the state is still the one of the constructor. *)
Theorem timeline_changes_notified (t0 : Z) (ops : list Op) :
  let s := run t0 ops in
  Hook.lastTimelineState (trace s) = Some (timelineState s)
  \/ (Hook.lastTimelineState (trace s) = None
      /\ timelineState s = timelineState (create t0)).
Proof.
  cbv zeta. fold (Hook.timelineTold t0 (run t0 ops)).
  induction ops as [|o ops IH] using rev_ind; [by right|].
  rewrite (run_snoc RegExp newRegExp test). by apply timelineTold_step.
Qed.

End WithHost.

(** An instance of X14: two links, an unlink and a change of speed. *)
Lemma hook_taskLinks_mirror_witness :
  let host (p flags : string) : Completion unit := Throw "SyntaxError" in
  let wall := mkEntity "g1" 7 "IfcWall" None in
  let door := mkEntity "g2" 8 "IfcDoor" None in
  let ops := [OpLink 1 "1" wall; OpLink 2 "1" door; OpUnlink "1" 7;
              OpSetPlaybackSpeed 2] in
  Hook.taskLinks (trace (run unit host (fun _ _ => false) 0 ops))
  = entityLinks (run unit host (fun _ _ => false) 0 ops).
Proof.
  intros host wall door ops.
  apply (hook_taskLinks_mirror unit host (fun _ _ => false) 0 ops).
  intros Hin.
  repeat (apply elem_of_cons in Hin as [Hin|Hin]; [discriminate|]).
  by apply elem_of_nil in Hin.
Defined.

End LinkMoreFacts.

(** ** More on the rules and the timeline *)

Module TimelineMoreFacts.
Import Js Timeline Scheduling Scheduling.Entity Queries.
Import TimelineFacts LinkFacts ParserMoreFacts QueriesFacts.

Lemma getTaskRules_remove (ruleId taskId : string) (s : Scheduling4DModule) :
  getTaskRules taskId (removeLinkRule ruleId s)
  = filter (fun r => rule_id r <> ruleId) (getTaskRules taskId s).
Proof.
  unfold getTaskRules, removeLinkRule. simpl. rewrite lookup_fmap.
  by destruct (linkRules s !! taskId).
Qed.

Lemma getTaskRules_add (r : LinkRule) (taskId : string)
    (s : Scheduling4DModule) :
  getTaskRules taskId (addLinkRule r s)
  = if decide (taskId = rule_taskId r) then getTaskRules taskId s ++ [r]
    else getTaskRules taskId s.
Proof.
  unfold getTaskRules, addLinkRule. simpl.
  destruct (decide (taskId = rule_taskId r)) as [->|].
  - by rewrite lookup_insert_eq.
  - by rewrite lookup_insert_ne.
Qed.

(** X17.  [removeLinkRule] removes the rules with the given identifier
    from every task and keeps the others in their order; removing a rule
    right after adding it gives back the rule lists as they were, when no
    rule carried that identifier before. *)
Theorem removeLinkRule_everywhere (ruleId : string) (r : LinkRule)
    (s : Scheduling4DModule) :
  (forall taskId r', r' ∈ getTaskRules taskId (removeLinkRule ruleId s)
                     <-> r' ∈ getTaskRules taskId s /\ rule_id r' <> ruleId)
  /\ ((forall taskId r', r' ∈ getTaskRules taskId s ->
                         rule_id r' <> rule_id r) ->
      forall taskId,
        getTaskRules taskId (removeLinkRule (rule_id r) (addLinkRule r s))
        = getTaskRules taskId s).
Proof.
  split.
  - intros taskId r'. rewrite getTaskRules_remove, list_elem_of_filter. tauto.
  - intros Hfresh taskId. rewrite getTaskRules_remove, getTaskRules_add.
    destruct (decide (taskId = rule_taskId r)) as [->|].
    + rewrite filter_app, (filter_singleton _ _ []).
      rewrite decide_False by tauto. rewrite app_nil_r.
      apply filter_all. intros r' Hr'. by eapply Hfresh.
    + apply filter_all. intros r' Hr'. by eapply Hfresh.
Qed.

(** X18.  A task that ends when it starts (a milestone), or before, is
    never shown in progress: it is gray before its start date (and on an
    Invalid Date) and green from then on. *)
Theorem milestone_never_in_progress (task : ScheduleTask) (date : Z) :
  Task.endDate task <= Task.startDate task ->
  taskVisual (ValidDate date) task
  = (if date <? Task.startDate task then mkVisual true (2 # 10) gray
     else mkVisual true 1 lightGreen)
  /\ taskVisual (ValidDate date) task <> mkVisual true 1 lightYellow
  /\ taskVisual InvalidDate task = mkVisual true (2 # 10) gray.
Proof.
  intros Hend. unfold taskVisual, isStarted, isCompleted, dateGe.
  split_and!; [| |done].
  - destruct (Z.ltb_spec date (Task.startDate task)).
    + by assert ((Task.startDate task <=? date) = false) as -> by lia.
    + assert ((Task.startDate task <=? date) = true) as -> by lia.
      by assert ((Task.endDate task <=? date) = true) as -> by lia.
  - destruct (Z.leb_spec (Task.startDate task) date); [|done].
    by assert ((Task.endDate task <=? date) = true) as -> by lia.
Qed.

(** An instance of X18: a milestone on day 10, asked on day 10. *)
Lemma milestone_never_in_progress_witness :
  let task :=
    Task.mkTask "task_1" "1" (JsString "M") 10 10 1 JsUndefined [] in
  taskVisual (ValidDate 10) task
  = (if 10 <? Task.startDate task then mkVisual true (2 # 10) gray
     else mkVisual true 1 lightGreen)
  /\ taskVisual (ValidDate 10) task <> mkVisual true 1 lightYellow
  /\ taskVisual InvalidDate task = mkVisual true (2 # 10) gray.
Proof.
  intros task. apply (milestone_never_in_progress task 10). simpl. lia.
Defined.

(** The sum of [NaN] and any number is [NaN], which is no time value. *)
Lemma timeClip_nan_add (x : float) : timeClip (nan + x) = InvalidDate.
Proof.
  unfold timeClip, is_finite, is_nan.
  rewrite FloatAxioms.eqb_spec, FloatAxioms.add_spec.
  change (Prim2SF nan) with S754_nan. by destruct (Prim2SF x).
Qed.

Lemma animate_invalid (now : Z) (handle : nat) (s : Scheduling4DModule) :
  currentDate (timelineState s) = InvalidDate ->
  isPlaying (timelineState s) = true ->
  timelineState (animate now handle s) = timelineState s.
Proof.
  intros Hdate Hplay. rewrite (animate_playing now handle s Hplay).
  unfold advancedDate. rewrite Hdate. cbn [getTime].
  rewrite timeClip_nan_add. cbn [dateGt]. rewrite <- Hdate.
  by destruct (timelineState s).
Qed.

(** X19.  An Invalid Date is never left by the animation: when
    [currentDate] is the Invalid Date and the module is playing, every
    tick, whatever the clock and the speed, leaves the timeline state as
    it is, so the date is never clamped to [endDate] and the module never
    stops by itself. *)
Theorem invalid_date_is_never_left (ticks : list (Z * nat))
    (s : Scheduling4DModule) :
  currentDate (timelineState s) = InvalidDate ->
  isPlaying (timelineState s) = true ->
  let s' := foldl (fun s tick => animate (fst tick) (snd tick) s) s ticks in
  timelineState s' = timelineState s
  /\ currentDate (timelineState s') = InvalidDate
  /\ isPlaying (timelineState s') = true.
Proof.
  intros Hdate Hplay. cbv zeta.
  assert (timelineState
            (foldl (fun s tick => animate (fst tick) (snd tick) s) s ticks)
          = timelineState s) as Hsame.
  { revert s Hdate Hplay.
    induction ticks as [|[now handle] ticks IH]; intros s Hdate Hplay;
      [done|].
    pose proof (animate_invalid now handle s Hdate Hplay) as Hstep.
    simpl. rewrite IH; [done|by rewrite Hstep..]. }
  by rewrite Hsame.
Qed.

(** An instance of X19: at speed [2e8] the tick one second after [play]
    leaves the Invalid Date, and two later ticks keep it. *)
Lemma invalid_date_is_never_left_witness :
  let s := animate 2000 2 (setPlaybackSpeed 2e8 (play 1000 1 (create 0))) in
  let s' :=
    foldl (fun s tick => animate (fst tick) (snd tick) s) s
      [(3000, 3%nat); (4000, 4%nat)] in
  timelineState s' = timelineState s
  /\ currentDate (timelineState s') = InvalidDate
  /\ isPlaying (timelineState s') = true.
Proof.
  intros s.
  apply (invalid_date_is_never_left [(3000, 3%nat); (4000, 4%nat)] s);
    by vm_compute.
Defined.

Lemma animate_stopped (now : Z) (handle : nat) (s : Scheduling4DModule) :
  isPlaying (timelineState s) = false -> animate now handle s = s.
Proof. unfold animate. by intros ->. Qed.

Lemma ticks_stopped (ticks : list (Z * nat)) (s : Scheduling4DModule) :
  isPlaying (timelineState s) = false ->
  foldl (fun s tick => animate (fst tick) (snd tick) s) s ticks = s.
Proof.
  intros Hs. induction ticks as [|[now handle] ticks IH]; simpl; [done|].
  by rewrite animate_stopped.
Qed.

(** X20.  A callback of the animation loop that still runs after the
    module stopped changes nothing: after [pause], after [reset] and
    after a tick whose advanced date was a valid date after [endDate] (the
    tick that clamps), any further ticks leave the state as it is, until
    [play] is called. *)
Theorem late_ticks_change_nothing (ticks : list (Z * nat)) (now : Z)
    (handle : nat) (s : Scheduling4DModule) :
  let run_ticks s :=
    foldl (fun s tick => animate (fst tick) (snd tick) s) s ticks in
  run_ticks (pause s) = pause s
  /\ run_ticks (reset s) = reset s
  /\ (forall date,
        isPlaying (timelineState s) = true ->
        advancedDate now s = ValidDate date ->
        endDate (timelineState s) < date ->
        run_ticks (animate now handle s) = animate now handle s).
Proof.
  cbv zeta. split_and!.
  - apply ticks_stopped. by rewrite timelineState_pause.
  - apply ticks_stopped. unfold reset. simpl.
    by rewrite timelineState_stopAnimation.
  - intros date Hplay Hadv Hend. apply ticks_stopped.
    rewrite (animate_playing now handle s Hplay), Hadv. cbn [dateGt].
    by assert ((endDate (timelineState s) <? date) = true) as -> by lia.
Qed.

Lemma entityLinks_loadTasks (ts : list ScheduleTask)
    (s : Scheduling4DModule) :
  entityLinks (loadTasks ts s) = entityLinks s
  /\ linkRules (loadTasks ts s) = linkRules s.
Proof.
  unfold loadTasks, calculateProjectTimeline. simpl.
  destruct (getFlatTasks _); [done|]. by destruct (foldl minMaxStep _ _).
Qed.

(** X21.  [loadTasks] keeps the links and the rules, also those of tasks
    that the new schedule does not have; the recompute then passes over
    them: every call it makes is for the link list of a task that
    [getTask] finds in the new schedule, and without a rendering world it
    makes none. *)
Theorem stale_links_not_visualized (world : bool) (ts : list ScheduleTask)
    (s : Scheduling4DModule) :
  let s' := loadTasks ts s in
  entityLinks s' = entityLinks s
  /\ linkRules s' = linkRules s
  /\ forall links v,
       (links, v) ∈ updateVisualization world s'
       <-> world = true
           /\ exists taskId task,
                entityLinks s !! taskId = Some links
                /\ getTask taskId s' = Some task
                /\ task ∈ flattenTasks ts
                /\ v = taskVisual (currentDate (timelineState s')) task.
Proof.
  intros s'. subst s'.
  destruct (entityLinks_loadTasks ts s) as [Hlinks Hrules].
  split_and!; [done|done|]. intros links v.
  unfold updateVisualization. destruct world; cbn [negb].
  - rewrite list_elem_of_omap, Hlinks. split.
    + intros ([taskId links'] & Hin & Hcall).
      apply elem_of_map_to_list in Hin.
      destruct (taskMap (loadTasks ts s) !! taskId) as [task|] eqn:Htask;
        [|done].
      injection Hcall as -> <-. split; [done|].
      exists taskId, task. split_and!; try done.
      rewrite taskMap_loadTasks, foldl_set_lookup in Htask.
      destruct (last _) as [task'|] eqn:Hlast; [|done].
      injection Htask as ->. apply last_Some_elem_of in Hlast.
      by apply list_elem_of_filter in Hlast as [_ ?].
    + intros (_ & taskId & task & Hl & Ht & _ & ->).
      exists (taskId, links). split.
      * by apply elem_of_map_to_list.
      * unfold getTask in Ht. by rewrite Ht.
  - split; [by intros ?%elem_of_nil|]. by intros [? _].
Qed.

(** X22.  [dispose] empties the schedule, the links and the rules and
    cancels the pending frame, but it keeps the timeline state,
    [isPlaying] included: on a module that was playing when it was
    disposed, [play] does not start the animation again. *)
Theorem dispose_keeps_timeline (now : Z) (handle : nat)
    (s : Scheduling4DModule) :
  getTasks (dispose s) = []
  /\ (forall taskId, getTask taskId (dispose s) = None
                     /\ getTaskLinks taskId (dispose s) = []
                     /\ getTaskRules taskId (dispose s) = [])
  /\ animationFrameId (dispose s) = None
  /\ timelineState (dispose s) = timelineState s
  /\ (isPlaying (timelineState s) = true ->
      play now handle (dispose s) = dispose s).
Proof.
  assert (timelineState (dispose s) = timelineState s) as Ht.
  { unfold dispose. simpl. apply timelineState_stopAnimation. }
  split_and!; try done.
  - unfold dispose, stopAnimation. simpl.
    by destruct (animationFrameId s) eqn:Hf.
  - intros Hplay. unfold play. by rewrite Ht, Hplay.
Qed.

End TimelineMoreFacts.
